(** * DNS utilities of the wallet: a shallow embedding of [src/common/dns_utils.cpp]

    The file follows the C++ source function by function.

    - [std::string] is [string] (a sequence of bytes), [size_t] is [nat],
      [std::string::npos] is [None]. The [int] index of the pair search is a
      [Z] without the wrap-around of 32 bits: the embedding is of calls with
      fewer than 2^31 hostnames.
    - A raw resource-record payload is a list of bytes; every read of it goes
      through a bounds-checked accessor, so that a read past the payload is
      visible in the result ([OutOfBounds]).
    - The collaborators the source calls but does not define (the validating
      resolver behind [ub_resolve], [crypto::rand_idx], the confirmation
      callback [dns_confirm]) are requests of a small free monad [prog]; a
      program is run against an environment that answers them, and the run
      records every request that was issued.
    - The worker pool of [load_txt_records_from_dns] runs one task per
      hostname, each writing its own slot, and is joined by [waiter.wait()]
      before any slot is read; the embedding performs the tasks in slot order.
    - Log output ([MERROR], [MINFO], [LOG_PRINT_*]) does not influence any
      returned value and is left out, except that the bytes a log line reads
      from a payload are still read.
    - A loop that walks a container is a recursion on it. The do-while loop
      and the two index loops of the pair search carry their exit test and a
      fuel; a loop that runs out of fuel yields [None], and so does an index
      outside a vector. *)

From Stdlib Require Import ZArith Ascii DecimalString DecimalNat Lia.
From stdpp Require Import base option list strings.

Local Open Scope Z_scope.
Local Open Scope nat_scope.

Notation "x <- m ; k" := (mbind (fun x => k) m)
  (at level 20, m at level 100, k at level 200, only parsing).

(* ================================================================== *)
(** * Strings *)

(** [s.find(pat, pos)]: the least position [p >= pos] at which [pat] occurs in
    [s], [None] for [npos]. *)
Definition find (s pat : string) (pos : nat) : option nat :=
  String.index pos pat s.

(** [s.substr(pos, n)]; the source only calls it with [pos <= s.size()]. *)
Definition substr (s : string) (pos n : nat) : string :=
  String.substring pos n s.

(** [s.c_str()] read as a C string: the bytes before the first NUL. *)
Fixpoint c_str (s : string) : string :=
  match s with
  | EmptyString => EmptyString
  | String c s' => if Ascii.eqb c Ascii.zero then EmptyString else String c (c_str s')
  end.

(** [strchr(addr, c)] for [c <> 0]: offset of the first [c], [None] for [NULL]. *)
Fixpoint strchr (addr : string) (c : ascii) : option nat :=
  match addr with
  | EmptyString => None
  | String a addr' => if Ascii.eqb a c then Some 0 else S <$> strchr addr' c
  end.

(** [operator<<] of an [unsigned int] on a stream: decimal digits. *)
Definition dec (n : nat) : string := NilZero.string_of_uint (Nat.to_uint n).

(* ================================================================== *)
(** * RecordDecoder: [ipv4_to_string], [ipv6_to_string], [txt_to_string] *)

Inductive access (A : Type) : Type :=
| InBounds (a : A)
| OutOfBounds.
Arguments InBounds {A} a.
Arguments OutOfBounds {A}.

#[global] Instance access_ret : MRet access := fun A a => InBounds a.
#[global] Instance access_bind : MBind access := fun A B f m =>
  match m with
  | InBounds a => f a
  | OutOfBounds => OutOfBounds
  end.

(** [src[i]] *)
Definition read (src : list Byte.byte) (i : nat) : access Byte.byte :=
  match src !! i with
  | Some b => InBounds b
  | None => OutOfBounds
  end.

(** [unsigned char a = src[i]; bytes[i] = a;], one turn of the copying loop. *)
Definition read_octet (src : list Byte.byte) (i : nat) : access nat :=
  a <- read src i ;
  InBounds (Byte.to_nat a).

(** [std::string(src + off, count)] *)
Fixpoint read_string (src : list Byte.byte) (off count : nat) : access string :=
  match count with
  | 0 => InBounds EmptyString
  | S count' =>
      a <- read src off ;
      text <- read_string src (S off) count' ;
      InBounds (String (ascii_of_byte a) text)
  end.

Definition ipv4_to_string (src : list Byte.byte) (len : nat) : access (option string) :=
  if len <? 4 then
    _ <- read_string src 0 len ;                  (* the text of the error line *)
    InBounds None
  else
    b0 <- read_octet src 0 ;
    b1 <- read_octet src 1 ;
    b2 <- read_octet src 2 ;
    b3 <- read_octet src 3 ;
    InBounds (Some (dec b0 +:+ "." +:+ dec b1 +:+ "." +:+ dec b2 +:+ "." +:+ dec b3)).

Definition ipv6_to_string (src : list Byte.byte) (len : nat) : access (option string) :=
  if len <? 8 then
    _ <- read_string src 0 len ;                  (* the text of the error line *)
    InBounds None
  else
    b0 <- read_octet src 0 ;
    b1 <- read_octet src 1 ;
    b2 <- read_octet src 2 ;
    b3 <- read_octet src 3 ;
    b4 <- read_octet src 4 ;
    b5 <- read_octet src 5 ;
    b6 <- read_octet src 6 ;
    b7 <- read_octet src 7 ;
    InBounds (Some (dec b0 +:+ ":" +:+ dec b1 +:+ ":" +:+ dec b2 +:+ ":" +:+ dec b3 +:+ ":"
                    +:+ dec b4 +:+ ":" +:+ dec b5 +:+ ":" +:+ dec b6 +:+ ":" +:+ dec b7)).

Definition txt_to_string (src : list Byte.byte) (len : nat) : access (option string) :=
  if len =? 0 then InBounds None
  else
    text <- read_string src 1 (len - 1) ;
    InBounds (Some text).

(* ================================================================== *)
(** * AddressExtractor: [address_from_txt_record] *)

Definition address_from_txt_record (s : string) : string :=
  match find s "oa1:xmr" 0 with
  | None => ""
  | Some pos =>
      match find s "recipient_address=" pos with
      | None => ""
      | Some pos =>
          let pos := pos + 18 in
          match find s ";" pos with
          | Some pos2 =>
              if pos2 - pos =? 95 then substr s pos 95
              else if pos2 - pos =? 106 then substr s pos 106
              else ""
          | None => ""
          end
      end
  end.

(* ================================================================== *)
(** * The collaborators and the programs that call them *)

(** Modelled from the spec: the record types [DNS_TYPE_A], [DNS_TYPE_AAAA]
    and [DNS_TYPE_TXT] are integer constants of [common/dns_utils.h], which
    is not part of the sources at hand; the spec names the three of them
    ("Resolved record types: A, AAAA, TXT"). *)
Inductive record_type : Type := DNS_TYPE_A | DNS_TYPE_AAAA | DNS_TYPE_TXT.

(** The fields of libunbound's [ub_result] that the source reads; the
    payload [data[i]] has [len[i]] bytes. *)
Record ub_result : Type := {
  secure : bool;
  bogus : bool;
  havedata : bool;
  data : list (list Byte.byte)
}.

Inductive request : Type :=
| UbResolve (name : string) (rrtype : record_type)
| RandIdx (n : nat)
| DnsConfirm (url : string) (addresses : list string) (dnssec_valid : bool).

(** [ub_resolve] answers [Some result] when it returns zero. *)
Definition response (q : request) : Type :=
  match q with
  | UbResolve _ _ => option ub_result
  | RandIdx _ => nat
  | DnsConfirm _ _ _ => string
  end.

Inductive prog (R : Type) : Type :=
| Ret (r : R)
| Vis (q : request) (k : response q -> prog R).
Arguments Ret {R} r.
Arguments Vis {R} q k.

Fixpoint bind {A B : Type} (f : A -> prog B) (p : prog A) : prog B :=
  match p with
  | Ret a => f a
  | Vis q k => Vis q (fun x => bind f (k x))
  end.

#[global] Instance prog_ret : MRet prog := fun A a => Ret a.
#[global] Instance prog_bind : MBind prog := fun A B f p => bind f p.

Definition call (q : request) : prog (response q) := Vis q Ret.

(** An environment answers the [k]-th request of a run. *)
Definition oracle : Type := forall q : request, nat -> response q.

(** The result of a program and the requests it issued, in order, when its
    first request is the [k]-th of the run. *)
Fixpoint run {R : Type} (env : oracle) (p : prog R) (k : nat) : R * list request :=
  match p with
  | Ret r => (r, [])
  | Vis q c => let '(r, t) := run env (c (env q k)) (S k) in (r, q :: t)
  end.

(** The contract of [crypto::rand_idx(n)], which is declared outside this
    file: the index it draws is below [n]. *)
Definition rand_idx_ok (env : oracle) : Prop :=
  forall n k, 0 < n -> env (RandIdx n) k < n.

(* ================================================================== *)
(** * ResolverContext: [DNSResolver] *)

Definition check_address_syntax (addr : string) : bool :=
  match strchr addr "."%char with
  | None => false
  | Some _ => true
  end.

(** The loop of [get_record] over [result->data[i]] up to the NULL entry;
    [reader] is called with the payload and its length [result->len[i]]. *)
Fixpoint read_records (reader : list Byte.byte -> nat -> access (option string))
    (data : list (list Byte.byte)) (addresses : list string) : list string :=
  match data with
  | [] => addresses
  | d :: data' =>
      match reader d (length d) with
      | InBounds (Some res) => read_records reader data' (addresses ++ [res])
      | _ => read_records reader data' addresses
      end
  end.

(** The result is [(addresses, dnssec_available, dnssec_valid)]. *)
Definition get_record (url : string) (rrtype : record_type)
    (reader : list Byte.byte -> nat -> access (option string))
    : prog (list string * bool * bool) :=
  let addresses := [] in
  let dnssec_available := false in
  let dnssec_valid := false in
  if negb (check_address_syntax (c_str url)) then
    mret (addresses, dnssec_available, dnssec_valid)
  else
    r <- call (UbResolve (c_str url) rrtype) ;
    match r with
    | Some result =>
        let dnssec_available := secure result || bogus result in
        let dnssec_valid := secure result && negb (bogus result) in
        let addresses :=
          if havedata result then read_records reader (data result) addresses
          else addresses in
        mret (addresses, dnssec_available, dnssec_valid)
    | None => mret (addresses, dnssec_available, dnssec_valid)
    end.

Definition get_ipv4 (url : string) : prog (list string * bool * bool) :=
  get_record url DNS_TYPE_A ipv4_to_string.

Definition get_ipv6 (url : string) : prog (list string * bool * bool) :=
  get_record url DNS_TYPE_AAAA ipv6_to_string.

Definition get_txt_record (url : string) : prog (list string * bool * bool) :=
  get_record url DNS_TYPE_TXT txt_to_string.

Definition get_dns_format_from_oa_address (oa_addr : string) : string :=
  let addr := oa_addr in
  match find addr "@" 0 with
  | None => addr
  | Some first_at =>
      substr addr 0 first_at +:+ "." +:+
      substr addr (first_at + 1) (String.length addr - (first_at + 1))
  end.

(* ================================================================== *)
(** * AddressLookupService *)

(** The loop of [addresses_from_url] over the records. *)
Fixpoint collect_addresses (records : list string) (addresses : list string) : list string :=
  match records with
  | [] => addresses
  | rec :: records' =>
      let addr := address_from_txt_record rec in
      if negb (String.length addr =? 0) then collect_addresses records' (addresses ++ [addr])
      else collect_addresses records' addresses
  end.

(** The result is [(addresses, dnssec_valid)]. *)
Definition addresses_from_url (url : string) : prog (list string * bool) :=
  let addresses := [] in
  let oa_addr := get_dns_format_from_oa_address url in
  res <- get_txt_record oa_addr ;
  let '(records, dnssec_available, dnssec_isvalid) := res in
  let dnssec_valid := if dnssec_available && dnssec_isvalid then true else false in
  mret (collect_addresses records addresses, dnssec_valid).

(** The result is [(address, dnssec_valid)]. *)
Definition get_account_address_as_str_from_url (url : string) : prog (string * bool) :=
  res <- addresses_from_url url ;
  let '(addresses, dnssec_valid) := res in
  if decide (addresses = []) then mret (EmptyString, dnssec_valid)
  else
    address <- call (DnsConfirm url addresses dnssec_valid) ;
    mret (address, dnssec_valid).

(* ================================================================== *)
(** * QuorumResolver: [load_txt_records_from_dns] *)

(** The inner loop of [dns_records_match]: is [record_in_a] among [b]? *)
Fixpoint found_in (record_in_a : string) (b : list string) : bool :=
  match b with
  | [] => false
  | record_in_b :: b' =>
      if String.eqb record_in_a record_in_b then true      (* ok = true; break *)
      else found_in record_in_a b'
  end.

(** The outer loop of [dns_records_match]. *)
Fixpoint all_found (a b : list string) : bool :=
  match a with
  | [] => true
  | record_in_a :: a' =>
      if negb (found_in record_in_a b) then false
      else all_found a' b
  end.

Definition dns_records_match (a b : list string) : bool :=
  if negb (length a =? length b) then false
  else all_found a b.

(** The three slot arrays the tasks write: [records], [avail], [valid]. *)
Definition slots : Type := list (list string) * list bool * list bool.

(** [for (size_t n = 0; n < dns_urls.size(); ++n) tpool.submit(...)] and
    [waiter.wait()]: task [n] stores the answer for [dns_urls[n]] in slot [n]
    of the three arrays. [rest] is the part of [dns_urls] from index [n] on. *)
Fixpoint submit_tasks (rest : list string) (n : nat) (st : slots) : prog slots :=
  match rest with
  | [] => mret st
  | url :: rest' =>
      res <- get_txt_record url ;
      let '(recs, a, v) := res in
      let '(records, avail, valid) := st in
      submit_tasks rest' (S n) (<[n := recs]> records, <[n := a]> avail, <[n := v]> valid)
  end.

(** The body of the do-while loop, up to the increment of [cur_index].
    An index outside the arrays has no defined behaviour: [None]. *)
Definition clear_step (dns_urls : list string) (avail valid : list bool)
    (cur_index : nat) (records : list (list string)) : option (list (list string)) :=
  _ <- dns_urls !! cur_index ;
  a <- avail !! cur_index ;
  v <- valid !! cur_index ;
  _ <- records !! cur_index ;
  let records := if negb a then <[cur_index := []]> records else records in
  let records := if negb v then <[cur_index := []]> records else records in
  Some records.

(** [do { ... } while (cur_index != first_index);] *)
Fixpoint clear_loop (fuel : nat) (dns_urls : list string) (avail valid : list bool)
    (first_index cur_index : nat) (records : list (list string))
    : option (list (list string)) :=
  match fuel with
  | 0 => None
  | S fuel' =>
      records <- clear_step dns_urls avail valid cur_index records ;
      let cur_index := cur_index + 1 in
      let cur_index := if cur_index =? length dns_urls then 0 else cur_index in
      if negb (cur_index =? first_index) then
        clear_loop fuel' dns_urls avail valid first_index cur_index records
      else Some records
  end.

(** [for (const auto &record_set : records) if (record_set.size() != 0) num_valid_records++;] *)
Fixpoint count_valid_records (records : list (list string)) (num_valid_records : nat) : nat :=
  match records with
  | [] => num_valid_records
  | record_set :: records' =>
      count_valid_records records'
        (if negb (length record_set =? 0) then num_valid_records + 1 else num_valid_records)
  end.

(** [for (size_t j = i + 1; j < records.size(); ++j)], entered with [j = i + 1]. *)
Fixpoint scan_j (fuel : nat) (records : list (list string)) (i j : nat)
    (good_records_index : Z) : option Z :=
  match fuel with
  | 0 => None
  | S fuel' =>
      if j <? length records then
        records_i <- records !! i ;
        records_j <- records !! j ;
        if dns_records_match records_i records_j then Some (Z.of_nat i)      (* break *)
        else scan_j fuel' records i (S j) good_records_index
      else Some good_records_index
  end.

(** [for (size_t i = 0; i < records.size() - 1; ++i)]; the loop is only
    reached with at least two slots, so the subtraction does not wrap. *)
Fixpoint scan_i (fuel : nat) (records : list (list string)) (i : nat)
    (good_records_index : Z) : option Z :=
  match fuel with
  | 0 => None
  | S fuel' =>
      if i <? length records - 1 then
        records_i <- records !! i ;
        if length records_i =? 0 then scan_i fuel' records (S i) good_records_index  (* continue *)
        else
          good_records_index <- scan_j fuel records i (i + 1) good_records_index ;
          if (0 <=? good_records_index)%Z then Some good_records_index               (* break *)
          else scan_i fuel' records (S i) good_records_index
      else Some good_records_index
  end.

(** From the count of the non-empty record sets to the end of the function.
    The result is [(accepted, good_records)]; [good_records] is the caller's
    vector, left as it was on rejection. *)
Definition quorum (fuel : nat) (good_records : list string) (dns_urls : list string)
    (records : list (list string)) : option (bool * list string) :=
  let num_valid_records := count_valid_records records 0 in
  if num_valid_records =? 0 then Some (false, good_records)
  else if length dns_urls =? 1 then
    records_0 <- records !! 0 ;
    Some (true, records_0)
  else
    good_records_index <- scan_i fuel records 0 (-1)%Z ;
    if (good_records_index <? 0)%Z then Some (false, good_records)
    else
      good <- records !! Z.to_nat good_records_index ;
      Some (true, good).

(** Everything after [waiter.wait()]. *)
Definition after_wait (fuel : nat) (good_records : list string) (dns_urls : list string)
    (first_index : nat) (st : slots) : option (bool * list string) :=
  let '(records, avail, valid) := st in
  let cur_index := first_index in
  records <- clear_loop fuel dns_urls avail valid first_index cur_index records ;
  quorum fuel good_records dns_urls records.

Definition load_txt_records_from_dns (fuel : nat) (good_records : list string)
    (dns_urls : list string) : prog (option (bool * list string)) :=
  if decide (dns_urls = []) then mret (Some (false, good_records))
  else
    let records := replicate (length dns_urls) [] in
    first_index <- call (RandIdx (length dns_urls)) ;
    let avail := replicate (length dns_urls) false in
    let valid := replicate (length dns_urls) false in
    st <- submit_tasks dns_urls 0 (records, avail, valid) ;
    mret (after_wait fuel good_records dns_urls first_index st).

(* ================================================================== *)
(** * Forwarder configuration: [parse_dns_public]

    [sscanf] belongs to the C library; what follows is its behaviour on the
    one format string the source uses, ["tcp://%u.%u.%u.%u%c"], in the C
    locale. A conversion whose value does not fit an [unsigned int] has no
    defined behaviour in C and is kept apart ([Unspecified]). The argument
    of [parse_dns_public] is a C string, given without its terminating NUL. *)

Definition DEFAULT_DNS_PUBLIC_ADDR : list string :=
  ["194.150.168.168"; "80.67.169.40"; "89.233.43.71"; "109.69.8.51"; "193.58.251.251"].

Definition isspace (c : ascii) : bool :=
  let n := nat_of_ascii c in (n =? 32) || ((9 <=? n) && (n <=? 13)).

Definition isdigit (c : ascii) : bool :=
  let n := nat_of_ascii c in (48 <=? n) && (n <=? 57).

Definition UINT_MAX : N := 4294967295.

(** The outcome of one directive of the format on the input that is left. *)
Inductive directive (A : Type) : Type :=
| Matched (a : A) (rest : string)
| InputFailure
| MatchingFailure
| Unspecified.
Arguments Matched {A} a rest.
Arguments InputFailure {A}.
Arguments MatchingFailure {A}.
Arguments Unspecified {A}.

(** Ordinary characters of the format: each must be the next input byte. *)
Fixpoint scan_literal (lit input : string) : directive unit :=
  match lit with
  | EmptyString => Matched tt input
  | String c lit' =>
      match input with
      | EmptyString => InputFailure
      | String a input' =>
          if Ascii.eqb a c then scan_literal lit' input' else MatchingFailure
      end
  end.

Fixpoint skip_space (input : string) : string :=
  match input with
  | EmptyString => EmptyString
  | String a input' => if isspace a then skip_space input' else input
  end.

(** The decimal digits at the head of the input, read into [acc]. *)
Fixpoint scan_digits (input : string) (acc : N) : N * string :=
  match input with
  | EmptyString => (acc, EmptyString)
  | String a input' =>
      if isdigit a then scan_digits input' (acc * 10 + N.of_nat (nat_of_ascii a - 48))%N
      else (acc, input)
  end.

(** [%u]: white space is skipped, then an optional sign and at least one
    decimal digit are read. A value above [UINT_MAX], and a negated value
    other than zero, do not fit the [unsigned int] they are stored in. *)
Definition scan_unsigned (input : string) : directive N :=
  match skip_space input with
  | EmptyString => InputFailure
  | String a rest as input =>
      let '(negative, input) :=
        if Ascii.eqb a "-" then (true, rest)
        else if Ascii.eqb a "+" then (false, rest)
        else (false, input) in
      match input with
      | EmptyString => MatchingFailure
      | String d _ =>
          if isdigit d then
            let '(value, rest) := scan_digits input 0%N in
            if (UINT_MAX <? value)%N || (negative && (0 <? value)%N) then Unspecified
            else Matched value rest
          else MatchingFailure
      end
  end.

(** What a call of [sscanf] yields: its return value and the values it
    assigned, or nothing defined. *)
Inductive scanned : Type :=
| Items (count : Z) (values : list N)
| NoDefinedResult.

(** The directives [%u.%u.%u.%u%c] from the [n]-th [%u] on, [values]
    holding what was assigned so far; a failure ends the scan with the
    number of assignments, or with [EOF] when nothing was converted and the
    input had ended. *)
Fixpoint scan_fields (fields_left : nat) (input : string) (values : list N) : scanned :=
  let count := Z.of_nat (length values) in
  match fields_left with
  | 0 =>
      match input with                                            (* [%c] *)
      | EmptyString => Items count values
      | String c _ => Items (count + 1) values
      end
  | S fields_left' =>
      let after_dot :=
        match values with
        | [] => Matched tt input
        | _ => scan_literal "." input
        end in
      match after_dot with
      | Matched _ input =>
          match scan_unsigned input with
          | Matched value rest => scan_fields fields_left' rest (values ++ [value])
          | InputFailure =>
              match values with [] => Items (-1) values | _ => Items count values end
          | MatchingFailure => Items count values
          | Unspecified => NoDefinedResult
          end
      | _ => Items count values
      end
  end.

(** [sscanf(s, "tcp://%u.%u.%u.%u%c", &ip0, &ip1, &ip2, &ip3, &c)] *)
Definition sscanf_tcp (s : string) : scanned :=
  match scan_literal "tcp://" s with
  | Matched _ input => scan_fields 4 input []
  | InputFailure => Items (-1) []
  | _ => Items 0 []
  end.

(** [None]: the call of [sscanf] has no defined behaviour on [s]. *)
Definition parse_dns_public (s : string) : option (list string) :=
  let dns_public_addr := [] in
  if String.eqb s "tcp" then
    Some (dns_public_addr ++ DEFAULT_DNS_PUBLIC_ADDR)
  else
    match sscanf_tcp s with
    | NoDefinedResult => None
    | Items count values =>
        if (count =? 4)%Z then
          match values with
          | [ip0; ip1; ip2; ip3] =>
              if (255 <? ip0)%N || (255 <? ip1)%N || (255 <? ip2)%N || (255 <? ip3)%N
              then Some dns_public_addr
              else Some (dns_public_addr ++ [substr s 6 (String.length s - 6)])
          | _ => None
          end
        else Some dns_public_addr
    end.

(* ================================================================== *)
(** * Vocabulary of the properties *)

(** [pat] occurs in [s] at position [p]. *)
Definition occurs_at (pat s : string) (p : nat) : Prop :=
  String.substring p (String.length pat) s = pat.

(** [p] is the first position at or after [from] where [pat] occurs in [s]. *)
Definition first_at (pat s : string) (from p : nat) : Prop :=
  from <= p /\ occurs_at pat s p /\ forall q, from <= q < p -> ~ occurs_at pat s q.

(** The micro-format of a TXT record, read left to right: the marker, the
    key at or after the marker, the next [;] after the key, and [X] the text
    between the key and that [;], of length 95 or 106. *)
Definition micro_format (s X : string) : Prop :=
  exists p q r,
    first_at "oa1:xmr" s 0 p /\
    first_at "recipient_address=" s p q /\
    first_at ";" s (q + 18) r /\
    X = String.substring (q + 18) (r - (q + 18)) s /\
    (String.length X = 95 \/ String.length X = 106).

(** The decimal values of [bytes], separated by [sep]. *)
Definition groups (sep : string) (bytes : list Byte.byte) : string :=
  String.concat sep (map (fun b => dec (Byte.to_nat b)) bytes).

(** The character [c] is one of the bytes of [s]. *)
Definition contains_char (s : string) (c : ascii) : Prop :=
  In c (String.list_ascii_of_string s).

(** The initial value of the three slot arrays. *)
Definition empty_slots (n : nat) : slots :=
  (replicate n [], replicate n false, replicate n false).

(** The slot arrays at [waiter.wait()] when the first task's request is the
    [k]-th of the run. *)
Definition answers (env : oracle) (dns_urls : list string) (k : nat) : slots :=
  (run env (submit_tasks dns_urls 0 (empty_slots (length dns_urls))) k).1.

(** The three slot arrays have [n] slots each. *)
Definition slots_length (st : slots) (n : nat) : Prop :=
  length st.1.1 = n /\ length st.1.2 = n /\ length st.2 = n.

(** Two environments give the same answer to every resolver query. *)
Definition same_resolver (env1 env2 : oracle) : Prop :=
  forall name rrtype k, env1 (UbResolve name rrtype) k = env2 (UbResolve name rrtype) k.

(** Per-source clearing: a source keeps its record set only when both of
    its flags are true. *)
Definition discard_untrusted (st : slots) : list (list string) :=
  let '(records, avail, valid) := st in
  zip_with (fun r (ok : bool) => if ok then r else []) records (zip_with andb avail valid).

(** Source [k] is trusted: both of its flags are true. *)
Definition trusted (avail valid : list bool) (k : nat) : bool :=
  default false (avail !! k) && default false (valid !! k).

(** The record set source [k] is left with by the clearing. *)
Definition keep (avail valid : list bool) (k : nat) (r : list string) : list string :=
  if trusted avail valid k then r else [].

(** The slots the clearing loop still visits when it stands at [cur], past
    its first iteration: from [cur] up to [first_index], cyclically. *)
Definition ahead (first_index cur k : nat) : Prop :=
  (cur < first_index /\ cur <= k < first_index) \/
  (first_index < cur /\ (cur <= k \/ k < first_index)).

#[global] Instance ahead_dec first_index cur k : Decision (ahead first_index cur k).
Proof. unfold ahead. apply _. Defined.

(** Equality of two record sets as sets: same cardinality, and every record
    of either one appears in the other. *)
Definition equal_as_sets (a b : list string) : Prop :=
  length a = length b /\ forall x, In x a <-> In x b.

(** What [dns_records_match] tests: same number of records, and every
    record of the first appears in the second. *)
Definition covered_by (a b : list string) : Prop :=
  length a = length b /\ forall x, In x a -> In x b.

(** Sources [i < j] both have a non-empty record set, related by [R]. *)
Definition matching_pair (R : list string -> list string -> Prop)
    (records : list (list string)) (i j : nat) : Prop :=
  i < j /\
  exists records_i records_j,
    records !! i = Some records_i /\ records !! j = Some records_j /\
    records_i <> [] /\ records_j <> [] /\ R records_i records_j.

(** The test the pair search applies to sources [i < j]. *)
Definition pair_ok (records : list (list string)) (i j : nat) : Prop :=
  i < j /\
  exists records_i records_j,
    records !! i = Some records_i /\ records !! j = Some records_j /\
    records_i <> [] /\ dns_records_match records_i records_j = true.

(** The first matching pair when [i] runs upward and, for each [i], [j > i]
    runs upward. *)
Definition first_matching_pair (R : list string -> list string -> Prop)
    (records : list (list string)) (i j : nat) : Prop :=
  matching_pair R records i j /\
  forall i' j', matching_pair R records i' j' -> i < i' \/ (i = i' /\ j <= j').

(** The outcome C1 describes for a lookup over more than one hostname, with
    [R] the relation between two record sets. *)
Definition pair_search_outcome (R : list string -> list string -> Prop)
    (good_records : list string) (records : list (list string))
    (outcome : option (bool * list string)) : Prop :=
  (exists i j records_i,
      first_matching_pair R records i j /\ records !! i = Some records_i /\
      outcome = Some (true, records_i)) \/
  ((forall i j, ~ matching_pair R records i j) /\ outcome = Some (false, good_records)).

Definition is_confirm (q : request) : bool :=
  match q with DnsConfirm _ _ _ => true | _ => false end.

(** The requests of a trace that are calls of the confirmation callback. *)
Definition confirm_calls (t : list request) : list request := List.filter is_confirm t.

(* ================================================================== *)
(** * Concrete inputs *)

(** The wire form of a TXT record holding [text]: a length byte, then the text. *)
Definition txt_payload (text : string) : list Byte.byte :=
  default Byte.xff (Byte.of_nat (String.length text)) :: String.list_byte_of_string text.

(** An answer of the resolver carrying the TXT records [texts]. *)
Definition txt_answer (is_secure is_bogus : bool) (texts : list string) : option ub_result :=
  Some {| secure := is_secure; bogus := is_bogus; havedata := true;
          data := map txt_payload texts |}.

(** A text of [n] characters standing for an address. *)
Definition sample_address (n : nat) : string :=
  String.string_of_list_ascii (replicate n "4"%char).

(** An environment with four signed zones and one unsigned zone; the random
    index is the last slot when [last] is set and the first slot otherwise. *)
Definition example_env (last : bool) : oracle := fun q k =>
  match q return response q with
  | UbResolve name _ =>
      if String.eqb name "a.example" then txt_answer true false ["a"; "a"]
      else if String.eqb name "b.example" then txt_answer true false ["a"; "b"]
      else if String.eqb name "c.example" then txt_answer true false ["b"; "a"]
      else if String.eqb name "d.example" then txt_answer true false ["d"]
      else if String.eqb name "u.example" then txt_answer false false ["a"; "b"]
      else None
  | RandIdx n => if last then n - 1 else 0
  | DnsConfirm url addresses dnssec_valid => "confirmed"
  end.

(* ================================================================== *)
(** * Vocabulary of the further properties *)

(** [c] is one of the ten decimal digits. *)
Definition is_digit (c : ascii) : Prop :=
  In c ["0"; "1"; "2"; "3"; "4"; "5"; "6"; "7"; "8"; "9"]%char.

(** The text of a TXT payload: the payload without its first byte. *)
Definition txt_text (payload : list Byte.byte) : string :=
  String.string_of_list_byte (drop 1 payload).

(** The payload has at least [n] bytes. *)
Definition at_least (n : nat) (payload : list Byte.byte) : bool :=
  n <=? length payload.


(** Source [i] answered [r] with both DNSSEC flags true. *)
Definition trusted_answer (st : slots) (i : nat) (r : list string) : Prop :=
  st.1.1 !! i = Some r /\ st.1.2 !! i = Some true /\ st.2 !! i = Some true.

(** Every byte of [w] is white space. *)
Definition all_space (w : string) : Prop :=
  forall c, contains_char w c -> isspace c = true.

(** Four decimal numbers separated by dots, each after the white space
    given for it. *)
Definition dotted_quad (w0 w1 w2 w3 : string) (n0 n1 n2 n3 : nat) : string :=
  w0 +:+ dec n0 +:+ "." +:+ w1 +:+ dec n1 +:+ "." +:+ w2 +:+ dec n2 +:+ "." +:+ w3 +:+ dec n3.

(** The input that follows a number: its end, or a byte that is no digit. *)
Definition ends_number (rest : string) : Prop :=
  match rest with
  | EmptyString => True
  | String c _ => isdigit c = false
  end.

(** The number fits an [unsigned int]. *)
Definition fits_unsigned (n : nat) : Prop := (N.of_nat n <= UINT_MAX)%N.

(** The number is an octet. *)
Definition is_octet (n : nat) : bool := n <=? 255.

(** The address has one of the two accepted lengths. *)
Definition address_length_ok (address : string) : Prop :=
  String.length address = 95 \/ String.length address = 106.

(** An environment whose zone [donate.example] publishes one well-formed
    address record and one record that is not an address. *)
Definition wallet_env : oracle := fun q k =>
  match q return response q with
  | UbResolve name _ =>
      if String.eqb name "donate.example"
      then txt_answer true false
             ["oa1:xmr recipient_address=" +:+ sample_address 95 +:+ "; recipient_name=Fund;";
              "v=spf1 -all"]
      else None
  | RandIdx n => 0
  | DnsConfirm url addresses dnssec_valid => default EmptyString (head addresses)
  end.

(* ================================================================== *)
(** * Strings: the contract of [find] and [substr] *)

Section StringFacts.

Lemma length_substring (s : string) : forall n m,
  String.length (String.substring n m s) = Nat.min m (String.length s - n).
Proof.
  induction s as [|c s IH]; intros [|n] [|m]; simpl; try reflexivity.
  - rewrite IH. rewrite Nat.sub_0_r. reflexivity.
  - apply IH.
  - apply IH.
Qed.

Lemma occurs_at_fits (pat s : string) (p : nat) :
  occurs_at pat s p -> String.length pat <= String.length s - p.
Proof.
  unfold occurs_at. intros H.
  pose proof (length_substring s p (String.length pat)) as L.
  rewrite H in L. lia.
Qed.

Lemma index_ge (s2 : string) : forall n s1 m,
  String.index n s1 s2 = Some m -> n <= m.
Proof.
  induction s2 as [|b s2 IH]; intros [|n] s1 m; simpl; try lia.
  - discriminate.
  - destruct (String.index n s1 s2) as [m'|] eqn:E; [|discriminate].
    intros [= <-]. apply IH in E. lia.
Qed.

(** [find] returns the first occurrence at or after [pos]. *)
Lemma find_Some (s pat : string) (pos p : nat) :
  find s pat pos = Some p -> first_at pat s pos p.
Proof.
  unfold find, first_at, occurs_at. intros H. split; [|split].
  - eapply index_ge; eassumption.
  - eapply String.index_correct1; eassumption.
  - intros q [Hq1 Hq2]. eapply String.index_correct2; eassumption.
Qed.

Lemma find_None (s pat : string) (pos p : nat) :
  pat <> EmptyString -> find s pat pos = None -> pos <= p -> ~ occurs_at pat s p.
Proof.
  unfold find, occurs_at. intros Hne H Hp.
  eapply String.index_correct3; eassumption.
Qed.

Lemma first_at_unique (pat s : string) (from p p' : nat) :
  first_at pat s from p -> first_at pat s from p' -> p = p'.
Proof.
  intros (H1 & H2 & H3) (H1' & H2' & H3').
  destruct (Nat.lt_trichotomy p p') as [Hlt|[Heq|Hgt]]; [|assumption|].
  - exfalso. apply (H3' p); [lia|assumption].
  - exfalso. apply (H3 p'); [lia|assumption].
Qed.

Lemma first_at_find (pat s : string) (from p : nat) :
  pat <> EmptyString -> first_at pat s from p -> find s pat from = Some p.
Proof.
  intros Hne Hp. destruct (find s pat from) as [p'|] eqn:E.
  - f_equal. eapply first_at_unique; [apply find_Some|]; eassumption.
  - exfalso. destruct Hp as (H1 & H2 & _).
    eapply find_None; eassumption.
Qed.

End StringFacts.

(* ================================================================== *)
(** * AddressExtractor *)

Section AddressExtractor.

Lemma semicolon_inside (s : string) (r : nat) :
  occurs_at ";" s r -> r < String.length s.
Proof. intros H. apply occurs_at_fits in H. simpl in H. lia. Qed.

Lemma address_found (s X : string) :
  address_from_txt_record s = X -> X <> EmptyString -> micro_format s X.
Proof.
  unfold address_from_txt_record. intros H HX.
  destruct (find s "oa1:xmr" 0) as [p|] eqn:Ep; [|congruence].
  destruct (find s "recipient_address=" p) as [q|] eqn:Eq; [|congruence].
  destruct (find s ";" (q + 18)) as [r|] eqn:Er; [|congruence].
  apply find_Some in Ep, Eq, Er.
  assert (Hr : r < String.length s) by (apply semicolon_inside, Er).
  assert (Hqr : q + 18 <= r) by apply Er.
  exists p, q, r. repeat split; try apply Ep; try apply Eq; try apply Er.
  - destruct (r - (q + 18) =? 95) eqn:E95; [apply Nat.eqb_eq in E95|].
    { rewrite E95. symmetry. exact H. }
    destruct (r - (q + 18) =? 106) eqn:E106; [apply Nat.eqb_eq in E106|congruence].
    rewrite E106. symmetry. exact H.
  - subst X. unfold substr.
    destruct (r - (q + 18) =? 95) eqn:E95; [apply Nat.eqb_eq in E95|].
    { left. rewrite length_substring. lia. }
    destruct (r - (q + 18) =? 106) eqn:E106; [apply Nat.eqb_eq in E106|congruence].
    right. rewrite length_substring. lia.
Qed.

Lemma micro_format_nonempty (s X : string) : micro_format s X -> X <> EmptyString.
Proof.
  intros (p & q & r & _ & _ & _ & _ & HL) ->. simpl in HL. lia.
Qed.

Lemma address_returned (s X : string) :
  micro_format s X -> address_from_txt_record s = X.
Proof.
  intros (p & q & r & Hp & Hq & Hr & HX & HL).
  unfold address_from_txt_record.
  rewrite (first_at_find "oa1:xmr" s 0 p); [|discriminate|exact Hp].
  rewrite (first_at_find "recipient_address=" s p q); [|discriminate|exact Hq].
  rewrite (first_at_find ";" s (q + 18) r); [|discriminate|exact Hr].
  assert (Hrs : r < String.length s) by (apply semicolon_inside, Hr).
  assert (Hqr : q + 18 <= r) by apply Hr.
  assert (HLX : String.length X = r - (q + 18)).
  { rewrite HX, length_substring. lia. }
  unfold substr. destruct HL as [HL|HL].
  - replace (r - (q + 18)) with 95 in * by lia. simpl. congruence.
  - replace (r - (q + 18)) with 106 in * by lia. simpl. congruence.
Qed.

(** C3. [address_from_txt_record s] is a non-empty address [X] exactly when
    [s] has the micro-format with [X] between the key and the terminating
    [;] and [X] is 95 or 106 bytes long; the marker, the key and the [;]
    are each the first one found from where the search stands. In every
    other case the result is the empty string. *)
Theorem address_from_txt_record_spec (s : string) :
  (forall X, micro_format s X <-> address_from_txt_record s = X /\ X <> EmptyString) /\
  ((~ exists X, micro_format s X) <-> address_from_txt_record s = EmptyString).
Proof.
  split.
  - intros X. split.
    + intros H. split; [apply address_returned, H|eapply micro_format_nonempty, H].
    + intros [H HX]. apply address_found; assumption.
  - split.
    + intros Hno. destruct (String.string_dec (address_from_txt_record s) EmptyString) as [E|NE];
        [exact E|].
      exfalso. apply Hno. exists (address_from_txt_record s).
      apply address_found; [reflexivity|exact NE].
    + intros E [X HX]. pose proof (address_returned _ _ HX) as HR.
      apply micro_format_nonempty in HX. congruence.
Qed.

End AddressExtractor.

(* ================================================================== *)
(** * RecordDecoder *)

Section RecordDecoder.

(** [dec] writes the decimal numeral: reading it back gives the number. *)
Lemma dec_decimal (n : nat) :
  (Nat.of_uint <$> NilZero.uint_of_string (dec n)) = Some n.
Proof.
  unfold dec. rewrite NilZero.usu.
  - simpl. f_equal. apply Unsigned.of_to.
  - destruct n as [|n]; [discriminate|].
    intros H. apply (f_equal Nat.of_uint) in H.
    rewrite Unsigned.of_to in H. discriminate.
Qed.

Lemma octet_range (b : Byte.byte) : Byte.to_nat b < 256.
Proof. destruct b; vm_compute; lia. Qed.

Lemma read_in (src : list Byte.byte) (off : nat) (b : Byte.byte) (rest : list Byte.byte) :
  drop off src = b :: rest -> read src off = InBounds b /\ drop (S off) src = rest.
Proof.
  intros H. unfold read. split.
  - rewrite <- (Nat.add_0_r off), <- lookup_drop, H. reflexivity.
  - replace (S off) with (off + 1) by lia.
    rewrite <- (drop_drop src 1 off), H. reflexivity.
Qed.

Lemma read_string_in (src : list Byte.byte) : forall count off,
  off + count <= length src ->
  read_string src off count =
  InBounds (String.string_of_list_byte (take count (drop off src))).
Proof.
  induction count as [|count IH]; intros off H; simpl.
  - reflexivity.
  - destruct (drop off src) as [|b rest] eqn:E.
    { apply (f_equal length) in E. rewrite length_drop in E. simpl in E. lia. }
    destruct (read_in _ _ _ _ E) as [-> Hrest]. simpl.
    rewrite IH by lia. rewrite Hrest. reflexivity.
Qed.

(** C8. On a payload of [len] bytes none of the three decoders reads
    outside the payload. Below its minimum length (4, 8 and 1 bytes) a
    decoder returns no value; from the minimum on, [ipv4_to_string] gives
    the first 4 bytes in decimal separated by dots, [ipv6_to_string] the
    first 8 bytes in decimal separated by colons, and [txt_to_string] the
    payload without its first byte. *)
Theorem decoders_spec (payload : list Byte.byte) :
  let len := length payload in
  ipv4_to_string payload len =
    InBounds (if len <? 4 then None else Some (groups "." (take 4 payload))) /\
  ipv6_to_string payload len =
    InBounds (if len <? 8 then None else Some (groups ":" (take 8 payload))) /\
  txt_to_string payload len =
    InBounds (if len <? 1 then None
              else Some (String.string_of_list_byte (drop 1 payload))).
Proof.
  intros len. subst len. repeat split.
  - unfold ipv4_to_string. destruct (length payload <? 4) eqn:E.
    + rewrite read_string_in by lia. reflexivity.
    + apply Nat.ltb_ge in E.
      do 4 (destruct payload as [|? payload]; [simpl in E; lia|]). reflexivity.
  - unfold ipv6_to_string. destruct (length payload <? 8) eqn:E.
    + rewrite read_string_in by lia. reflexivity.
    + apply Nat.ltb_ge in E.
      do 8 (destruct payload as [|? payload]; [simpl in E; lia|]). reflexivity.
  - unfold txt_to_string. destruct payload as [|b payload]; [reflexivity|].
    cbn [length Nat.eqb Nat.ltb Nat.leb Nat.sub]. rewrite Nat.sub_0_r.
    rewrite read_string_in by (cbn [length]; lia).
    change (drop 1 (b :: payload)) with payload.
    rewrite take_ge by lia. reflexivity.
Qed.

End RecordDecoder.

(* ================================================================== *)
(** * Running programs *)

Section Running.

Context {A B : Type}.

Lemma run_ret (env : oracle) (a : A) (k : nat) : run env (mret a) k = (a, []).
Proof. reflexivity. Qed.

Lemma run_call (env : oracle) (q : request) (k : nat) :
  run env (call q) k = (env q k, [q]).
Proof. reflexivity. Qed.

(** A sequence runs its first part, then the rest on the requests that follow. *)
Lemma run_bind (env : oracle) (f : A -> prog B) (p : prog A) : forall k,
  run env (mbind f p) k =
  let '(a, t1) := run env p k in
  let '(b, t2) := run env (f a) (k + length t1) in
  (b, t1 ++ t2).
Proof.
  unfold mbind, prog_bind.
  induction p as [a|q c IH]; intros k; simpl.
  - rewrite Nat.add_0_r. destruct (run env (f a) k). reflexivity.
  - rewrite IH. destruct (run env (c (env q k)) (S k)) as [a t1]. simpl.
    replace (k + S (length t1)) with (S (k + length t1)) by lia.
    destruct (run env (f a) (S (k + length t1))). reflexivity.
Qed.

End Running.

(* ================================================================== *)
(** * ResolverContext *)

Section ResolverContext.

Lemma strchr_absent (s : string) (c : ascii) : ~ contains_char s c -> strchr s c = None.
Proof.
  unfold contains_char. induction s as [|a s IH]; simpl; intros H; [reflexivity|].
  destruct (Ascii.eqb_spec a c) as [->|Hne].
  - exfalso. apply H. left. reflexivity.
  - rewrite IH; [reflexivity|]. intros Hin. apply H. right. exact Hin.
Qed.

Lemma strchr_present (s : string) (c : ascii) (p : nat) :
  strchr s c = Some p -> contains_char s c.
Proof.
  unfold contains_char. revert p. induction s as [|a s IH]; simpl; intros p; [discriminate|].
  destruct (Ascii.eqb_spec a c) as [->|Hne]; [left; reflexivity|].
  destruct (strchr s c) as [p'|]; [|discriminate]. intros _. right. eapply IH. reflexivity.
Qed.

Lemma c_str_chars (s : string) (c : ascii) : contains_char (c_str s) c -> contains_char s c.
Proof.
  unfold contains_char. induction s as [|a s IH]; simpl; [tauto|].
  destruct (Ascii.eqb a Ascii.zero); simpl; [tauto|].
  intros [H|H]; [left; exact H|right; apply IH, H].
Qed.

Lemma check_address_syntax_no_dot (url : string) :
  ~ contains_char url "."%char -> check_address_syntax (c_str url) = false.
Proof.
  intros H. unfold check_address_syntax. rewrite strchr_absent; [reflexivity|].
  intros Hc. apply H, c_str_chars, Hc.
Qed.

(** A lookup issues at most one request, a resolver query. *)
Lemma get_record_trace (env : oracle) (url : string) (rrtype : record_type)
    (reader : list Byte.byte -> nat -> access (option string)) (k : nat) :
  (run env (get_record url rrtype reader) k).2 = [] \/
  (run env (get_record url rrtype reader) k).2 = [UbResolve (c_str url) rrtype].
Proof.
  unfold get_record. destruct (check_address_syntax (c_str url)); simpl; [|left; reflexivity].
  right. destruct (env (UbResolve (c_str url) rrtype) k); reflexivity.
Qed.

(** C7. For a name without a ['.'], [get_record], and with it [get_ipv4],
    [get_ipv6] and [get_txt_record], returns no record and both DNSSEC flags
    false, and its run issues no request at all: the resolver is not
    queried. *)
Theorem get_record_no_dot (url : string) (Hurl : ~ contains_char url "."%char)
    (env : oracle) (k : nat) :
  (forall rrtype reader,
      run env (get_record url rrtype reader) k = (([], false, false), [])) /\
  run env (get_ipv4 url) k = (([], false, false), []) /\
  run env (get_ipv6 url) k = (([], false, false), []) /\
  run env (get_txt_record url) k = (([], false, false), []).
Proof.
  assert (H : forall rrtype reader,
             run env (get_record url rrtype reader) k = (([], false, false), [])).
  { intros rrtype reader. unfold get_record.
    rewrite check_address_syntax_no_dot by exact Hurl. reflexivity. }
  repeat split; intros; apply H.
Qed.

Lemma get_record_no_dot_witness :
  run (example_env false) (get_txt_record "localhost") 0 = (([], false, false), []).
Proof.
  apply (get_record_no_dot "localhost").
  intros H. vm_compute in H.
  repeat (destruct H as [H|H]; [discriminate|]). exact H.
Defined.

End ResolverContext.

(* ================================================================== *)
(** * AddressLookupService *)

Section AddressLookupService.

Lemma addresses_from_url_trace (env : oracle) (url : string) (k : nat) :
  confirm_calls (run env (addresses_from_url url) k).2 = [].
Proof.
  unfold addresses_from_url. rewrite run_bind.
  pose proof (get_record_trace env (get_dns_format_from_oa_address url)
                DNS_TYPE_TXT txt_to_string k) as Ht.
  fold (get_txt_record (get_dns_format_from_oa_address url)) in Ht.
  destruct (run env (get_txt_record (get_dns_format_from_oa_address url)) k)
    as [[[records a] v] t]. simpl in *.
  destruct Ht as [->| ->]; reflexivity.
Qed.

(** C9. With [candidates] and [dnssec_valid] what [addresses_from_url]
    extracts for [url]: when there is no candidate the lookup returns the
    empty string and its run contains no call of the confirmation callback;
    otherwise the run contains exactly one call of it, with
    [(url, candidates, dnssec_valid)], and the lookup returns the answer of
    that call. *)
Theorem get_account_address_as_str_from_url_spec (env : oracle) (url : string) (k : nat) :
  let found := run env (addresses_from_url url) k in
  let candidates := found.1.1 in
  let dnssec_valid := found.1.2 in
  let lookup := run env (get_account_address_as_str_from_url url) k in
  lookup.1.2 = dnssec_valid /\
  if decide (candidates = []) then
    lookup.1.1 = EmptyString /\ confirm_calls lookup.2 = []
  else
    confirm_calls lookup.2 = [DnsConfirm url candidates dnssec_valid] /\
    lookup.1.1 = env (DnsConfirm url candidates dnssec_valid) (k + length found.2).
Proof.
  intros found candidates dnssec_valid lookup.
  subst lookup. unfold get_account_address_as_str_from_url. rewrite run_bind.
  pose proof (addresses_from_url_trace env url k) as Ht.
  subst candidates dnssec_valid found.
  destruct (run env (addresses_from_url url) k) as [[addresses valid] t].
  simpl in *. destruct (decide (addresses = [])) as [E|NE]; simpl.
  - rewrite app_nil_r. auto.
  - unfold confirm_calls in *. rewrite List.filter_app, Ht. simpl. auto.
Qed.

End AddressLookupService.

(* ================================================================== *)
(** * QuorumResolver: the clearing loop *)

Section ClearLoop.

Variables (dns_urls : list string) (avail valid : list bool) (first_index : nat).
Hypothesis Havail : length avail = length dns_urls.
Hypothesis Hvalid : length valid = length dns_urls.
Hypothesis Hfirst : first_index < length dns_urls.

Lemma clear_step_spec (cur_index : nat) (records : list (list string)) (r : list string) :
  cur_index < length dns_urls ->
  records !! cur_index = Some r ->
  clear_step dns_urls avail valid cur_index records =
  Some (<[cur_index := keep avail valid cur_index r]> records).
Proof.
  clear Hfirst. intros Hcur Hr. unfold clear_step, keep, trusted.
  destruct (lookup_lt_is_Some_2 dns_urls cur_index Hcur) as [u ->].
  destruct (lookup_lt_is_Some_2 avail cur_index ltac:(lia)) as [a ->].
  destruct (lookup_lt_is_Some_2 valid cur_index ltac:(lia)) as [v ->].
  rewrite Hr. simpl. f_equal.
  destruct a, v; simpl.
  - symmetry. apply list_insert_id, Hr.
  - reflexivity.
  - reflexivity.
  - apply list_insert_insert_eq.
Qed.

Lemma clear_loop_rest : forall (m fuel cur : nat) (records : list (list string)),
  cur < length dns_urls -> cur <> first_index ->
  m = (if cur <? first_index then first_index - cur
       else length dns_urls - cur + first_index) ->
  m <= fuel -> length records = length dns_urls ->
  exists out,
    clear_loop fuel dns_urls avail valid first_index cur records = Some out /\
    length out = length dns_urls /\
    forall k, out !! k =
      if decide (ahead first_index cur k) then keep avail valid k <$> records !! k
      else records !! k.
Proof.
  induction m as [|m IH]; intros fuel cur records Hcur Hne Hm Hfuel Hlen.
  { destruct (Nat.ltb_spec cur first_index); lia. }
  destruct fuel as [|fuel]; [lia|].
  destruct (lookup_lt_is_Some_2 records cur ltac:(lia)) as [r Hr].
  cbn [clear_loop]. rewrite (clear_step_spec cur records r Hcur Hr). simpl.
  set (next := if cur + 1 =? length dns_urls then 0 else cur + 1).
  assert (Hnext : (cur + 1 = length dns_urls /\ next = 0) \/
                  (cur + 1 < length dns_urls /\ next = cur + 1)).
  { subst next. destruct (Nat.eqb_spec (cur + 1) (length dns_urls)); lia. }
  clearbody next.
  destruct (Nat.eqb_spec next first_index) as [Hex|Hgo]; simpl.
  - eexists. split; [reflexivity|]. split; [rewrite length_insert; exact Hlen|].
    intros k. destruct (decide (k = cur)) as [->|Hk].
    + rewrite list_lookup_insert_eq by lia. rewrite Hr.
      destruct (decide (ahead first_index cur cur)) as [_|Hn]; [reflexivity|].
      exfalso. apply Hn. unfold ahead. lia.
    + rewrite list_lookup_insert_ne by congruence.
      destruct (decide (ahead first_index cur k)) as [Ha|_]; [|reflexivity].
      rewrite lookup_ge_None_2; [reflexivity|]. unfold ahead in Ha. lia.
  - destruct (IH fuel next (<[cur := keep avail valid cur r]> records))
      as (out & Hout & Hlo & Hk); try lia.
    { destruct (Nat.ltb_spec cur first_index), (Nat.ltb_spec next first_index); lia. }
    { rewrite length_insert. exact Hlen. }
    exists out. split; [exact Hout|]. split; [exact Hlo|].
    intros k. rewrite Hk. destruct (decide (k = cur)) as [->|Hkc].
    + rewrite list_lookup_insert_eq by lia. rewrite Hr.
      destruct (decide (ahead first_index next cur)) as [Ha|_]; [unfold ahead in Ha; lia|].
      destruct (decide (ahead first_index cur cur)) as [_|Hn]; [reflexivity|].
      exfalso. apply Hn. unfold ahead. lia.
    + rewrite list_lookup_insert_ne by congruence.
      destruct (decide (ahead first_index next k)) as [Ha|Hn],
               (decide (ahead first_index cur k)) as [Ha'|Hn'];
        try reflexivity.
      * destruct (Nat.lt_ge_cases k (length dns_urls)) as [Hlt|Hge].
        { exfalso. apply Hn'. unfold ahead in *. lia. }
        { rewrite lookup_ge_None_2 by lia. reflexivity. }
      * destruct (Nat.lt_ge_cases k (length dns_urls)) as [Hlt|Hge].
        { exfalso. apply Hn. unfold ahead in *. lia. }
        { rewrite lookup_ge_None_2 by lia. reflexivity. }
Qed.

Lemma discard_untrusted_lookup (records : list (list string)) (k : nat) :
  length records = length dns_urls ->
  discard_untrusted (records, avail, valid) !! k = keep avail valid k <$> records !! k.
Proof.
  clear Hfirst. intros Hlen. unfold discard_untrusted, keep, trusted.
  rewrite !lookup_zip_with.
  destruct (Nat.lt_ge_cases k (length dns_urls)) as [Hlt|Hge].
  - destruct (lookup_lt_is_Some_2 records k ltac:(lia)) as [r ->].
    destruct (lookup_lt_is_Some_2 avail k ltac:(lia)) as [a ->].
    destruct (lookup_lt_is_Some_2 valid k ltac:(lia)) as [v ->].
    reflexivity.
  - rewrite (lookup_ge_None_2 records) by lia. reflexivity.
Qed.

(** The do-while loop ends after one pass over the slots, wherever it
    starts, and leaves the per-source clearing of the arrays. *)
Lemma clear_loop_correct (fuel : nat) (records : list (list string)) :
  length dns_urls <= fuel -> length records = length dns_urls ->
  clear_loop fuel dns_urls avail valid first_index first_index records =
  Some (discard_untrusted (records, avail, valid)).
Proof.
  intros Hfuel Hlen. destruct fuel as [|fuel]; [lia|].
  destruct (lookup_lt_is_Some_2 records first_index ltac:(lia)) as [r Hr].
  cbn [clear_loop]. rewrite (clear_step_spec first_index records r Hfirst Hr).
  cbn [mbind option_bind].
  set (next := if first_index + 1 =? length dns_urls then 0 else first_index + 1).
  assert (Hnext : (first_index + 1 = length dns_urls /\ next = 0) \/
                  (first_index + 1 < length dns_urls /\ next = first_index + 1)).
  { subst next. destruct (Nat.eqb_spec (first_index + 1) (length dns_urls)); lia. }
  clearbody next.
  destruct (Nat.eqb_spec next first_index) as [Hex|Hgo]; cbn [negb].
  - f_equal. apply list_eq. intros k. rewrite discard_untrusted_lookup by exact Hlen.
    destruct (decide (k = first_index)) as [->|Hk].
    + rewrite list_lookup_insert_eq by lia. rewrite Hr. reflexivity.
    + rewrite list_lookup_insert_ne by congruence.
      rewrite lookup_ge_None_2 by lia. reflexivity.
  - destruct (clear_loop_rest (length dns_urls - 1) fuel next
                (<[first_index := keep avail valid first_index r]> records))
      as (out & -> & Hlo & Hk); try lia.
    { destruct (Nat.ltb_spec next first_index); lia. }
    { rewrite length_insert. exact Hlen. }
    f_equal. apply list_eq. intros k. rewrite Hk, discard_untrusted_lookup by exact Hlen.
    destruct (decide (k = first_index)) as [->|Hkf].
    + rewrite list_lookup_insert_eq by lia. rewrite Hr.
      destruct (decide (ahead first_index next first_index)) as [Ha|_];
        [unfold ahead in Ha; lia|reflexivity].
    + rewrite list_lookup_insert_ne by congruence.
      destruct (decide (ahead first_index next k)) as [_|Hn]; [reflexivity|].
      destruct (Nat.lt_ge_cases k (length dns_urls)) as [Hlt|Hge].
      { exfalso. apply Hn. unfold ahead. lia. }
      { rewrite lookup_ge_None_2 by lia. reflexivity. }
Qed.

End ClearLoop.

(* ================================================================== *)
(** * QuorumResolver: the tasks and the barrier *)

Section Tasks.

Lemma run_get_record_ext (env1 env2 : oracle) (url : string) (rrtype : record_type)
    (reader : list Byte.byte -> nat -> access (option string)) (k : nat) :
  same_resolver env1 env2 ->
  run env1 (get_record url rrtype reader) k = run env2 (get_record url rrtype reader) k.
Proof.
  intros Hsame. unfold get_record.
  destruct (check_address_syntax (c_str url)); simpl; [|reflexivity].
  rewrite (Hsame (c_str url) rrtype k).
  destruct (env2 (UbResolve (c_str url) rrtype) k); reflexivity.
Qed.

Lemma submit_tasks_step (env : oracle) (url : string) (rest : list string) (n : nat)
    (st : slots) (k : nat) :
  run env (submit_tasks (url :: rest) n st) k =
  let '(res, t1) := run env (get_txt_record url) k in
  let '(st', t2) :=
    run env (submit_tasks rest (S n)
               (<[n := res.1.1]> st.1.1, <[n := res.1.2]> st.1.2, <[n := res.2]> st.2))
        (k + length t1) in
  (st', t1 ++ t2).
Proof.
  cbn [submit_tasks]. rewrite run_bind.
  destruct (run env (get_txt_record url) k) as [[[recs a] v] t1].
  destruct st as [[records avail] valid]. reflexivity.
Qed.

Lemma submit_tasks_length (env : oracle) (m : nat) : forall rest n st k,
  slots_length st m -> slots_length (run env (submit_tasks rest n st) k).1 m.
Proof.
  induction rest as [|url rest IH]; intros n st k Hst; [exact Hst|].
  rewrite submit_tasks_step.
  destruct (run env (get_txt_record url) k) as [res t1].
  specialize (IH (S n) (<[n := res.1.1]> st.1.1, <[n := res.1.2]> st.1.2, <[n := res.2]> st.2)
                (k + length t1)).
  destruct (run env (submit_tasks rest (S n) _) (k + length t1)) as [st' t2].
  apply IH. destruct Hst as (H1 & H2 & H3).
  unfold slots_length. simpl. rewrite !length_insert. auto.
Qed.

Lemma submit_tasks_ext (env1 env2 : oracle) : same_resolver env1 env2 ->
  forall rest n st k,
  run env1 (submit_tasks rest n st) k = run env2 (submit_tasks rest n st) k.
Proof.
  intros Hsame. induction rest as [|url rest IH]; intros n st k; [reflexivity|].
  rewrite !submit_tasks_step. unfold get_txt_record.
  rewrite (run_get_record_ext env1 env2) by exact Hsame.
  destruct (run env2 (get_record url DNS_TYPE_TXT txt_to_string) k) as [res t1].
  rewrite IH. reflexivity.
Qed.

Lemma answers_length (env : oracle) (dns_urls : list string) (k : nat) :
  slots_length (answers env dns_urls k) (length dns_urls).
Proof.
  unfold answers. apply submit_tasks_length.
  unfold slots_length, empty_slots. simpl. rewrite !length_replicate. auto.
Qed.

Lemma answers_ext (env1 env2 : oracle) (dns_urls : list string) (k : nat) :
  same_resolver env1 env2 -> answers env1 dns_urls k = answers env2 dns_urls k.
Proof.
  intros Hsame. unfold answers.
  rewrite (submit_tasks_ext env1 env2) by exact Hsame. reflexivity.
Qed.

(** A call on a non-empty list of hostnames draws the index, runs the
    tasks and decides on the filled arrays. *)
Lemma load_run (env : oracle) (fuel : nat) (good_records dns_urls : list string) (k : nat) :
  dns_urls <> [] ->
  (run env (load_txt_records_from_dns fuel good_records dns_urls) k).1 =
  after_wait fuel good_records dns_urls (env (RandIdx (length dns_urls)) k)
    (answers env dns_urls (S k)).
Proof.
  intros Hne. unfold load_txt_records_from_dns, answers, empty_slots.
  destruct (decide (dns_urls = [])) as [E|_]; [contradiction|].
  unfold call. cbn [mbind prog_bind bind run].
  change (bind ?f ?p) with (mbind f p). rewrite run_bind.
  destruct (run env (submit_tasks dns_urls 0 _) (S k)) as [st t]. reflexivity.
Qed.

Lemma after_wait_cleared (fuel : nat) (good_records dns_urls : list string)
    (first_index : nat) (st : slots) :
  slots_length st (length dns_urls) -> first_index < length dns_urls ->
  length dns_urls <= fuel ->
  after_wait fuel good_records dns_urls first_index st =
  quorum fuel good_records dns_urls (discard_untrusted st).
Proof.
  destruct st as [[records avail] valid]. intros (H1 & H2 & H3) Hfirst Hfuel.
  simpl in H1, H2, H3. unfold after_wait.
  rewrite clear_loop_correct by assumption. reflexivity.
Qed.

(** The outcome of a call is the decision on the cleared arrays. *)
Lemma load_outcome (env : oracle) (fuel : nat) (good_records dns_urls : list string) (k : nat) :
  dns_urls <> [] -> rand_idx_ok env -> length dns_urls <= fuel ->
  (run env (load_txt_records_from_dns fuel good_records dns_urls) k).1 =
  quorum fuel good_records dns_urls (discard_untrusted (answers env dns_urls (S k))).
Proof.
  intros Hne Hrand Hfuel. rewrite load_run by exact Hne.
  apply after_wait_cleared; [apply answers_length| |exact Hfuel].
  apply Hrand. destruct dns_urls; [contradiction|simpl; lia].
Qed.

End Tasks.

(* ================================================================== *)
(** * QuorumResolver: comparing record sets *)

Section RecordsMatch.

Lemma found_in_spec (x : string) (b : list string) : found_in x b = true <-> In x b.
Proof.
  induction b as [|y b IH]; simpl; [split; [discriminate|tauto]|].
  destruct (String.eqb_spec x y) as [->|Hne].
  - split; auto.
  - rewrite IH. split; [auto|]. intros [H|H]; [congruence|exact H].
Qed.

Lemma all_found_spec (a b : list string) :
  all_found a b = true <-> forall x, In x a -> In x b.
Proof.
  induction a as [|y a IH]; simpl.
  - split; [intros _ x []|reflexivity].
  - destruct (found_in y b) eqn:E; simpl.
    + apply found_in_spec in E. rewrite IH. split.
      * intros H x [<-|Hx]; auto.
      * intros H x Hx. apply H. right. exact Hx.
    + split; [discriminate|]. intros H.
      assert (Hy : In y b) by (apply H; left; reflexivity).
      apply found_in_spec in Hy. congruence.
Qed.

(** [dns_records_match a b] holds exactly when [a] and [b] have the same
    number of records and every record of [a] is one of [b]. *)
Lemma dns_records_match_spec (a b : list string) :
  dns_records_match a b = true <-> covered_by a b.
Proof.
  unfold dns_records_match, covered_by.
  destruct (Nat.eqb_spec (length a) (length b)) as [E|NE]; simpl.
  - rewrite all_found_spec. tauto.
  - split; [discriminate|]. intros [H _]. contradiction.
Qed.

Lemma pair_ok_matching (records : list (list string)) (i j : nat) :
  pair_ok records i j <-> matching_pair covered_by records i j.
Proof.
  unfold pair_ok, matching_pair. split.
  - intros (Hij & ri & rj & Hi & Hj & Hne & Hm). split; [exact Hij|].
    exists ri, rj. apply dns_records_match_spec in Hm.
    repeat split; try assumption; try apply Hm.
    intros ->. destruct Hm as [Hl _]. destruct ri; [congruence|discriminate].
  - intros (Hij & ri & rj & Hi & Hj & Hne & _ & Hm). split; [exact Hij|].
    exists ri, rj. apply dns_records_match_spec in Hm. auto.
Qed.

Lemma count_valid_records_zero (records : list (list string)) : forall c,
  count_valid_records records c = 0 <-> c = 0 /\ forall r, In r records -> r = [].
Proof.
  induction records as [|r records IH]; intros c; simpl.
  - split; [intros ->; split; [reflexivity|tauto]|tauto].
  - rewrite IH. destruct r as [|x r]; simpl.
    + split.
      * intros [-> H]. split; [reflexivity|]. intros r [<-|Hr]; auto.
      * intros [-> H]. split; [reflexivity|]. intros r Hr. apply H. right. exact Hr.
    + split; [lia|]. intros [_ H]. specialize (H (x :: r) (or_introl eq_refl)). discriminate.
Qed.

End RecordsMatch.

(* ================================================================== *)
(** * QuorumResolver: the pair search *)

Section PairSearch.

Variable records : list (list string).

(** The inner loop stops at the first [j] whose record set matches. *)
Lemma scan_j_spec (i : nat) (records_i : list string) (idx : Z) :
  records !! i = Some records_i ->
  forall d j fuel, j + d = length records -> d < fuel ->
  (exists j' records_j,
      j <= j' /\ records !! j' = Some records_j /\
      dns_records_match records_i records_j = true /\
      (forall j'' r, j <= j'' < j' -> records !! j'' = Some r ->
                     dns_records_match records_i r = false) /\
      scan_j fuel records i j idx = Some (Z.of_nat i)) \/
  ((forall j'' r, j <= j'' -> records !! j'' = Some r ->
                  dns_records_match records_i r = false) /\
   scan_j fuel records i j idx = Some idx).
Proof.
  intros Hi. induction d as [|d IH]; intros j fuel Hd Hfuel;
    (destruct fuel as [|fuel]; [lia|]); cbn [scan_j].
  - right. destruct (Nat.ltb_spec j (length records)) as [Hlt|_]; [lia|].
    split; [|reflexivity]. intros j'' r Hj Hr. apply lookup_lt_Some in Hr. lia.
  - destruct (Nat.ltb_spec j (length records)) as [Hlt|Hge]; [|lia].
    destruct (lookup_lt_is_Some_2 records j Hlt) as [records_j Hj].
    rewrite Hi, Hj. cbn [mbind option_bind].
    destruct (dns_records_match records_i records_j) eqn:Hm.
    + left. exists j, records_j. repeat split; try assumption; try lia.
    + destruct (IH (S j) fuel ltac:(lia) ltac:(lia))
        as [(j' & rj' & Hle & Hj' & Hm' & Hmin & Hres)|[Hnone Hres]].
      * left. exists j', rj'. repeat split; try assumption; try lia.
        intros j'' r Hrange Hr. destruct (decide (j'' = j)) as [->|Hne].
        { congruence. }
        { apply (Hmin j'' r); [lia|exact Hr]. }
      * right. split; [|exact Hres]. intros j'' r Hle Hr.
        destruct (decide (j'' = j)) as [->|Hne]; [congruence|].
        apply (Hnone j'' r); [lia|exact Hr].
Qed.

(** The outer loop stops at the first [i] that has a partner; started with
    a negative index it returns that [i], or the index it started with. *)
Lemma scan_i_spec (idx : Z) : (idx < 0)%Z ->
  forall d i fuel, i + d = length records - 1 -> d < fuel ->
  (exists i' j',
      i <= i' /\ pair_ok records i' j' /\
      (forall i'' j'', i <= i'' -> pair_ok records i'' j'' ->
                       i' < i'' \/ (i' = i'' /\ j' <= j'')) /\
      scan_i fuel records i idx = Some (Z.of_nat i')) \/
  ((forall i'' j'', i <= i'' -> ~ pair_ok records i'' j'') /\
   scan_i fuel records i idx = Some idx).
Proof.
  intros Hidx. induction d as [|d IH]; intros i fuel Hd Hfuel;
    (destruct fuel as [|fuel]; [lia|]); cbn [scan_i].
  - right. destruct (Nat.ltb_spec i (length records - 1)) as [Hlt|_]; [lia|].
    split; [|reflexivity]. intros i'' j'' Hle (Hij & ri & rj & _ & Hj & _).
    apply lookup_lt_Some in Hj. lia.
  - destruct (Nat.ltb_spec i (length records - 1)) as [Hlt|Hge]; [|lia].
    destruct (lookup_lt_is_Some_2 records i ltac:(lia)) as [records_i Hi].
    rewrite Hi. cbn [mbind option_bind].
    assert (Hrest :
              (forall j'', ~ pair_ok records i j'') ->
              (forall i' j', S i <= i' -> pair_ok records i' j' ->
                (forall i'' j'', S i <= i'' -> pair_ok records i'' j'' ->
                                 i' < i'' \/ (i' = i'' /\ j' <= j'')) ->
                forall i'' j'', i <= i'' -> pair_ok records i'' j'' ->
                                i' < i'' \/ (i' = i'' /\ j' <= j''))).
    { intros Hno i' j' Hle Hp Hmin i'' j'' Hle' Hp'.
      destruct (decide (i'' = i)) as [->|Hne]; [exfalso; eapply Hno; exact Hp'|].
      apply Hmin; [lia|exact Hp']. }
    assert (Hskip : (forall j'', ~ pair_ok records i j'') ->
              (exists i' j',
                  i <= i' /\ pair_ok records i' j' /\
                  (forall i'' j'', i <= i'' -> pair_ok records i'' j'' ->
                                   i' < i'' \/ (i' = i'' /\ j' <= j'')) /\
                  scan_i fuel records (S i) idx = Some (Z.of_nat i')) \/
              ((forall i'' j'', i <= i'' -> ~ pair_ok records i'' j'') /\
               scan_i fuel records (S i) idx = Some idx)).
    { intros Hno.
      destruct (IH (S i) fuel ltac:(lia) ltac:(lia))
        as [(i' & j' & Hle & Hp & Hmin & Hres)|[Hnone Hres]].
      - left. exists i', j'. split; [lia|]. split; [exact Hp|]. split; [|exact Hres].
        apply (Hrest Hno i' j' Hle Hp Hmin).
      - right. split; [|exact Hres]. intros i'' j'' Hle Hp.
        destruct (decide (i'' = i)) as [->|Hne]; [eapply Hno; exact Hp|].
        apply (Hnone i'' j''); [lia|exact Hp]. }
    destruct (Nat.eqb_spec (length records_i) 0) as [Hempty|Hnonempty].
    + apply Hskip. intros j'' (_ & ri & rj & Hi' & _ & Hne & _).
      rewrite Hi in Hi'. injection Hi' as <-. destruct records_i; [congruence|discriminate].
    + destruct (scan_j_spec i records_i idx Hi (length records - (i + 1)) (i + 1) (S fuel)
                  ltac:(lia) ltac:(lia))
        as [(j' & rj' & Hle & Hj' & Hm' & Hmin & ->)|[Hnone ->]];
        cbn [mbind option_bind].
      * destruct (Z.leb_spec 0 (Z.of_nat i)) as [_|Hneg]; [|lia].
        left. exists i, j'. split; [lia|]. split.
        { split; [lia|]. exists records_i, rj'. repeat split; try assumption.
          intros ->. simpl in Hnonempty. congruence. }
        split; [|reflexivity].
        intros i'' j'' Hle' (Hij & ri & rj & Hi'' & Hj'' & Hne & Hm).
        destruct (decide (i'' = i)) as [->|Hne']; [|lia]. right. split; [reflexivity|].
        destruct (Nat.le_gt_cases j' j'') as [Hok|Hlt']; [exact Hok|].
        rewrite Hi in Hi''. injection Hi'' as <-.
        rewrite (Hmin j'' rj) in Hm; [discriminate|lia|exact Hj''].
      * destruct (Z.leb_spec 0 idx) as [Hpos|_]; [lia|].
        apply Hskip. intros j'' (Hij & ri & rj & Hi'' & Hj'' & Hne & Hm).
        rewrite Hi in Hi''. injection Hi'' as <-.
        rewrite (Hnone j'' rj) in Hm; [discriminate|lia|exact Hj''].
Qed.

End PairSearch.

(* ================================================================== *)
(** * QuorumResolver: the decision *)

Section Quorum.

Lemma lookup_In {A : Type} (l : list A) (i : nat) (x : A) : l !! i = Some x -> In x l.
Proof. intros H. apply list_elem_of_In. eapply list_elem_of_lookup_2, H. Qed.

Lemma example_env_rand_idx_ok (last : bool) : rand_idx_ok (example_env last).
Proof. intros n k Hn. simpl. destruct last; lia. Qed.

(** With more than one hostname the decision is the pair search. *)
Lemma quorum_pairs (fuel : nat) (good_records dns_urls : list string)
    (records : list (list string)) :
  1 < length dns_urls -> length records = length dns_urls -> length dns_urls <= fuel ->
  pair_search_outcome covered_by good_records records
    (quorum fuel good_records dns_urls records).
Proof.
  intros Hn Hlen Hfuel. unfold quorum, pair_search_outcome.
  destruct (Nat.eqb_spec (count_valid_records records 0) 0) as [Hz|Hnz].
  { right. split; [|reflexivity]. apply count_valid_records_zero in Hz as [_ Hall].
    intros i j (_ & ri & rj & Hi & _ & Hne & _). apply Hne, Hall. eapply lookup_In, Hi. }
  destruct (Nat.eqb_spec (length dns_urls) 1) as [H1|_]; [lia|].
  destruct (scan_i_spec records (-1)%Z ltac:(lia) (length records - 1) 0 fuel
              ltac:(lia) ltac:(lia))
    as [(i & j & _ & Hp & Hmin & ->)|[Hnone ->]]; cbn [mbind option_bind].
  - destruct (Z.ltb_spec (Z.of_nat i) 0) as [Hneg|_]; [lia|].
    rewrite Nat2Z.id. pose proof Hp as (_ & ri & rj & Hi & _).
    rewrite Hi. cbn [mbind option_bind]. left. exists i, j, ri.
    split; [|split; [exact Hi|reflexivity]]. split; [apply pair_ok_matching, Hp|].
    intros i' j' Hp'. apply Hmin; [lia|apply pair_ok_matching, Hp'].
  - right. split; [|reflexivity]. intros i j Hp.
    apply (Hnone i j); [lia|apply pair_ok_matching, Hp].
Qed.

(** With enough fuel the decision is always reached. *)
Lemma quorum_total (fuel : nat) (good_records dns_urls : list string)
    (records : list (list string)) :
  dns_urls <> [] -> length records = length dns_urls -> length dns_urls <= fuel ->
  exists outcome, quorum fuel good_records dns_urls records = Some outcome.
Proof.
  intros Hne Hlen Hfuel.
  destruct (decide (length dns_urls = 1)) as [H1|Hn1].
  - unfold quorum. destruct (count_valid_records records 0 =? 0); [eauto|].
    rewrite H1. simpl. destruct records as [|r records]; [simpl in Hlen; lia|]. simpl. eauto.
  - assert (Hn : 1 < length dns_urls) by (destruct dns_urls; [contradiction|simpl in *; lia]).
    destruct (quorum_pairs fuel good_records dns_urls records Hn Hlen Hfuel)
      as [(i & j & ri & _ & _ & ->)|[_ ->]]; eauto.
Qed.

Lemma clear_step_length (dns_urls : list string) (avail valid : list bool) (cur : nat)
    (records out : list (list string)) :
  clear_step dns_urls avail valid cur records = Some out -> length out = length records.
Proof.
  unfold clear_step.
  destruct (dns_urls !! cur); [|discriminate]. destruct (avail !! cur) as [a|]; [|discriminate].
  destruct (valid !! cur) as [v|]; [|discriminate]. destruct (records !! cur); [|discriminate].
  simpl. intros [= <-]. destruct a, v; simpl; rewrite ?length_insert; reflexivity.
Qed.

Lemma clear_loop_length (dns_urls : list string) (avail valid : list bool) (first_index : nat) :
  forall fuel cur records out,
  clear_loop fuel dns_urls avail valid first_index cur records = Some out ->
  length out = length records.
Proof.
  induction fuel as [|fuel IH]; intros cur records out; cbn [clear_loop]; [discriminate|].
  destruct (clear_step dns_urls avail valid cur records) as [records'|] eqn:Hs; [|discriminate].
  apply clear_step_length in Hs. cbn [mbind option_bind].
  destruct (negb _).
  - intros H. apply IH in H. congruence.
  - intros [= <-]. exact Hs.
Qed.

Lemma scan_j_sound (records : list (list string)) (i : nat) (idx : Z) :
  forall fuel j g, scan_j fuel records i j idx = Some g -> g = Z.of_nat i \/ g = idx.
Proof.
  induction fuel as [|fuel IH]; intros j g; cbn [scan_j]; [discriminate|].
  destruct (j <? length records); [|intros [= <-]; right; reflexivity].
  destruct (records !! i) as [ri|]; [|discriminate].
  destruct (records !! j) as [rj|]; [|discriminate]. cbn [mbind option_bind].
  destruct (dns_records_match ri rj); [intros [= <-]; left; reflexivity|apply IH].
Qed.

(** An index the pair search returns is that of a non-empty record set. *)
Lemma scan_i_sound (records : list (list string)) (idx : Z) : (idx < 0)%Z ->
  forall fuel i g, scan_i fuel records i idx = Some g -> (0 <= g)%Z ->
  exists records_g, records !! Z.to_nat g = Some records_g /\ records_g <> [].
Proof.
  intros Hidx. induction fuel as [|fuel IH]; intros i g; cbn [scan_i]; [discriminate|].
  destruct (i <? length records - 1); [|intros [= <-]; lia].
  destruct (records !! i) as [ri|] eqn:Hi; [|discriminate]. cbn [mbind option_bind].
  destruct (Nat.eqb_spec (length ri) 0) as [_|Hne]; [apply IH|].
  destruct (scan_j (S fuel) records i (i + 1) idx) as [g'|] eqn:Hj; [|discriminate].
  cbn [mbind option_bind]. apply scan_j_sound in Hj.
  destruct (Z.leb_spec 0 g') as [Hpos|Hneg];
    [|destruct Hj as [->| ->]; [lia|apply IH]].
  intros [= <-] _. destruct Hj as [->| ->]; [|lia].
  rewrite Nat2Z.id. exists ri. split; [exact Hi|]. intros ->. simpl in Hne. congruence.
Qed.

(** A record set the decision accepts is not empty. *)
Lemma quorum_accept_nonempty (fuel : nat) (good_records dns_urls : list string)
    (records : list (list string)) (accepted : list string) :
  length records = length dns_urls ->
  quorum fuel good_records dns_urls records = Some (true, accepted) -> accepted <> [].
Proof.
  intros Hlen. unfold quorum.
  destruct (Nat.eqb_spec (count_valid_records records 0) 0) as [Hz|Hnz]; [discriminate|].
  destruct (Nat.eqb_spec (length dns_urls) 1) as [H1|_].
  - destruct records as [|r [|r' records]]; simpl in Hlen; try lia.
    simpl. intros [= <-] ->. apply Hnz. reflexivity.
  - destruct (scan_i fuel records 0 (-1)%Z) as [g|] eqn:Hg; [|discriminate].
    cbn [mbind option_bind]. destruct (Z.ltb_spec g 0) as [Hneg|Hpos]; [discriminate|].
    destruct (scan_i_sound records (-1)%Z ltac:(lia) fuel 0 g Hg Hpos) as (rg & -> & Hne).
    cbn [mbind option_bind]. intros [= <-]. exact Hne.
Qed.

End Quorum.

(* ================================================================== *)
(** * QuorumResolver: the properties of [load_txt_records_from_dns] *)

Section LoadTxtRecords.

(** C1, as the specification states it. The claim fails on the code: the
    first source answers [a, a], the second [a, b], both DNSSEC-valid; the
    two record sets are not equal as sets, no other pair exists, and the
    call accepts the first source's records. *)
Lemma load_pair_search_not_set_equality :
  let env := example_env false in
  let dns_urls := ["a.example"; "b.example"] in
  let outcome := (run env (load_txt_records_from_dns 2 ["old"] dns_urls) 0).1 in
  outcome = Some (true, ["a"; "a"]) /\
  ~ pair_search_outcome equal_as_sets ["old"]
      (discard_untrusted (answers env dns_urls 1)) outcome.
Proof.
  split; [reflexivity|].
  intros [(i & j & ri & [(Hij & ri' & rj & Hi & Hj & _ & _ & _ & Heq) _] & _)|[_ H]].
  - vm_compute in Hi, Hj.
    destruct i as [|[|i]], j as [|[|j]]; try lia; try discriminate.
    injection Hi as <-. injection Hj as <-.
    assert (Hb : In "b" ["a"; "a"]) by (apply Heq; right; left; reflexivity).
    destruct Hb as [Hb|[Hb|[]]]; discriminate.
  - discriminate.
Qed.

(** C1, amended. For a call with more than one hostname, after the
    per-source clearing: if some pair of sources [i < j], both with a
    non-empty record set, has record sets with the same number of records
    and every record of source [i] among those of source [j], the call
    accepts the record set of the first such pair ([i] upward, then [j > i]
    upward); otherwise it rejects and leaves [good_records] as it was. *)
Theorem load_pair_search (env : oracle) (fuel : nat) (good_records dns_urls : list string)
    (k : nat) (Hmany : 1 < length dns_urls) (Hrand : rand_idx_ok env)
    (Hfuel : length dns_urls <= fuel) :
  pair_search_outcome covered_by good_records
    (discard_untrusted (answers env dns_urls (S k)))
    (run env (load_txt_records_from_dns fuel good_records dns_urls) k).1.
Proof.
  assert (Hne : dns_urls <> []) by (intros ->; simpl in Hmany; lia).
  rewrite load_outcome by assumption.
  pose proof (answers_length env dns_urls (S k)) as (H1 & H2 & H3).
  apply quorum_pairs; try assumption.
  destruct (answers env dns_urls (S k)) as [[records avail] valid]. simpl in *.
  unfold discard_untrusted. rewrite !length_zip_with. lia.
Qed.

Lemma load_pair_search_witness :
  pair_search_outcome covered_by ["old"]
    (discard_untrusted (answers (example_env true) ["u.example"; "b.example"; "c.example"] 1))
    (run (example_env true)
       (load_txt_records_from_dns 3 ["old"] ["u.example"; "b.example"; "c.example"]) 0).1.
Proof.
  apply (load_pair_search (example_env true) 3 ["old"]
           ["u.example"; "b.example"; "c.example"] 0).
  - simpl. lia.
  - apply example_env_rand_idx_ok.
  - simpl. lia.
Defined.

(** On record sets without a repeated record, what the pair search tests
    is equality as sets. *)
Lemma covered_by_equal_as_sets (a b : list string) :
  List.NoDup a -> (covered_by a b <-> equal_as_sets a b).
Proof.
  intros Hnd. unfold covered_by, equal_as_sets. split.
  - intros [Hlen Hincl]. split; [exact Hlen|]. intros x. split; [apply Hincl|].
    apply (List.NoDup_length_incl Hnd); [lia|exact Hincl].
  - intros [Hlen Heq]. split; [exact Hlen|]. intros x. apply Heq.
Qed.

(** C2. In every call on a non-empty list of hostnames the clearing loop
    ends, wherever it starts, and leaves an empty record set in the slot of
    every source whose [dnssec_available] or [dnssec_valid] flag is false,
    whatever records that source returned; the outcome of the call is the
    decision taken on the cleared slots. *)
Theorem untrusted_sources_cleared (env : oracle) (fuel : nat)
    (good_records dns_urls : list string) (k : nat)
    (Hne : dns_urls <> []) (Hrand : rand_idx_ok env) (Hfuel : length dns_urls <= fuel) :
  let first_index := env (RandIdx (length dns_urls)) k in
  let st := answers env dns_urls (S k) in
  exists cleared,
    clear_loop fuel dns_urls st.1.2 st.2 first_index first_index st.1.1 = Some cleared /\
    (forall i a v, st.1.2 !! i = Some a -> st.2 !! i = Some v ->
                   a = false \/ v = false -> cleared !! i = Some []) /\
    (run env (load_txt_records_from_dns fuel good_records dns_urls) k).1 =
    quorum fuel good_records dns_urls cleared.
Proof.
  intros first_index st. exists (discard_untrusted st).
  pose proof (answers_length env dns_urls (S k)) as (H1 & H2 & H3). fold st in H1, H2, H3.
  assert (Hfirst : first_index < length dns_urls).
  { apply Hrand. destruct dns_urls; [contradiction|simpl; lia]. }
  split; [|split].
  - destruct st as [[records avail] valid]. cbn [fst snd] in *.
    apply clear_loop_correct; assumption.
  - intros i a v Ha Hv Hfalse. destruct st as [[records avail] valid]. cbn [fst snd] in *.
    rewrite (discard_untrusted_lookup dns_urls) by assumption.
    destruct (lookup_lt_is_Some_2 records i) as [r ->].
    { apply lookup_lt_Some in Ha. lia. }
    unfold keep, trusted. rewrite Ha, Hv. simpl.
    destruct Hfalse as [-> | ->]; [reflexivity|]. rewrite andb_false_r. reflexivity.
  - apply load_outcome; assumption.
Qed.

Lemma untrusted_sources_cleared_witness :
  exists cleared,
    clear_loop 2 ["u.example"; "b.example"] [false; true] [false; true] 1 1
      [["a"; "b"]; ["a"; "b"]] = Some cleared /\
    cleared !! 0 = Some [] /\
    (run (example_env true)
       (load_txt_records_from_dns 2 ["old"] ["u.example"; "b.example"]) 0).1 =
    quorum 2 ["old"] ["u.example"; "b.example"] cleared.
Proof.
  destruct (untrusted_sources_cleared (example_env true) 2 ["old"]
              ["u.example"; "b.example"] 0 ltac:(discriminate)
              (example_env_rand_idx_ok true) ltac:(simpl; lia))
    as (cleared & Hloop & Hclear & Hout).
  exists cleared. split; [exact Hloop|]. split; [|exact Hout].
  apply (Hclear 0 false false); [reflexivity|reflexivity|left; reflexivity].
Defined.

(** C4. A call with exactly one hostname whose source answers at least one
    record with both DNSSEC flags true accepts exactly that record set. *)
Theorem load_single_source (env : oracle) (fuel : nat) (good_records : list string)
    (url : string) (k : nat) (records_0 : list string)
    (Hrand : rand_idx_ok env) (Hfuel : 1 <= fuel)
    (Hanswer : (run env (get_txt_record url) (S k)).1 = (records_0, true, true))
    (Hsome : records_0 <> []) :
  (run env (load_txt_records_from_dns fuel good_records [url]) k).1 = Some (true, records_0).
Proof.
  rewrite load_outcome; [|discriminate|exact Hrand|exact Hfuel].
  unfold answers. rewrite submit_tasks_step.
  destruct (run env (get_txt_record url) (S k)) as [res t]. simpl in Hanswer. subst res.
  cbn -[quorum]. unfold quorum. cbn [count_valid_records].
  destruct records_0 as [|x records_0]; [contradiction|]. reflexivity.
Qed.

Lemma load_single_source_witness :
  (run (example_env false) (load_txt_records_from_dns 1 ["old"] ["b.example"]) 0).1 =
  Some (true, ["a"; "b"]).
Proof.
  apply (load_single_source (example_env false) 1 ["old"] "b.example" 0 ["a"; "b"]).
  - apply example_env_rand_idx_ok.
  - lia.
  - reflexivity.
  - discriminate.
Defined.

(** C5. A call rejects, and leaves [good_records] as it was, when the list
    of hostnames is empty, and when after the clearing the count of sources
    with a non-empty record set is zero. *)
Theorem load_rejects (env : oracle) (fuel : nat) (good_records dns_urls : list string)
    (k : nat)
    (Hcase : dns_urls = [] \/
             (rand_idx_ok env /\ length dns_urls <= fuel /\
              forall record_set,
                In record_set (discard_untrusted (answers env dns_urls (S k))) ->
                record_set = [])) :
  (run env (load_txt_records_from_dns fuel good_records dns_urls) k).1 =
  Some (false, good_records).
Proof.
  destruct (decide (dns_urls = [])) as [->|Hne]; [reflexivity|].
  destruct Hcase as [->|(Hrand & Hfuel & Hzero)]; [contradiction|].
  rewrite load_outcome by assumption. unfold quorum.
  rewrite (proj2 (count_valid_records_zero _ 0) (conj eq_refl Hzero)). reflexivity.
Qed.

Lemma load_rejects_witness :
  (run (example_env false) (load_txt_records_from_dns 0 ["old"] []) 0).1 =
    Some (false, ["old"]) /\
  (run (example_env false)
     (load_txt_records_from_dns 2 ["old"] ["u.example"; "localhost"]) 0).1 =
    Some (false, ["old"]).
Proof.
  split.
  - apply (load_rejects (example_env false) 0 ["old"] [] 0). left. reflexivity.
  - apply (load_rejects (example_env false) 2 ["old"] ["u.example"; "localhost"] 0).
    right. split; [apply example_env_rand_idx_ok|]. split; [simpl; lia|].
    intros record_set H. vm_compute in H. destruct H as [<-|[<-|[]]]; reflexivity.
Defined.

(** The decision after the barrier does not depend on the starting index. *)
Lemma after_wait_index_independent (fuel : nat) (good_records dns_urls : list string)
    (st : slots) (first_index first_index' : nat) :
  slots_length st (length dns_urls) -> length dns_urls <= fuel ->
  first_index < length dns_urls -> first_index' < length dns_urls ->
  after_wait fuel good_records dns_urls first_index st =
  after_wait fuel good_records dns_urls first_index' st.
Proof.
  intros Hst Hfuel H1 H2. rewrite !after_wait_cleared by assumption. reflexivity.
Qed.

(** C6. Two runs of a call whose resolver answers are the same, whatever
    index [crypto::rand_idx] draws in each, reach the same outcome: the same
    accepted flag and the same record set. *)
Theorem load_index_independent (env env' : oracle) (fuel : nat)
    (good_records dns_urls : list string) (k : nat)
    (Hsame : same_resolver env env') (Hrand : rand_idx_ok env) (Hrand' : rand_idx_ok env')
    (Hfuel : length dns_urls <= fuel) :
  exists outcome,
    (run env (load_txt_records_from_dns fuel good_records dns_urls) k).1 = Some outcome /\
    (run env' (load_txt_records_from_dns fuel good_records dns_urls) k).1 = Some outcome.
Proof.
  destruct (decide (dns_urls = [])) as [->|Hne]; [eexists; split; reflexivity|].
  assert (Hpos : 0 < length dns_urls) by (destruct dns_urls; [contradiction|simpl; lia]).
  rewrite !load_run by exact Hne.
  rewrite <- (answers_ext env env') by exact Hsame.
  rewrite (after_wait_index_independent fuel good_records dns_urls _
             (env' (RandIdx (length dns_urls)) k) (env (RandIdx (length dns_urls)) k));
    [|apply answers_length|exact Hfuel|apply Hrand', Hpos|apply Hrand, Hpos].
  rewrite after_wait_cleared; [|apply answers_length|apply Hrand, Hpos|exact Hfuel].
  destruct (quorum_total fuel good_records dns_urls
              (discard_untrusted (answers env dns_urls (S k))) Hne) as [outcome Hout].
  - pose proof (answers_length env dns_urls (S k)) as (H1 & H2 & H3).
    destruct (answers env dns_urls (S k)) as [[records avail] valid]. cbn [fst snd] in *.
    unfold discard_untrusted. rewrite !length_zip_with. lia.
  - exact Hfuel.
  - exists outcome. split; exact Hout.
Qed.

Lemma load_index_independent_witness :
  exists outcome,
    (run (example_env false)
       (load_txt_records_from_dns 3 ["old"] ["u.example"; "b.example"; "c.example"]) 0).1 =
      Some outcome /\
    (run (example_env true)
       (load_txt_records_from_dns 3 ["old"] ["u.example"; "b.example"; "c.example"]) 0).1 =
      Some outcome.
Proof.
  apply (load_index_independent (example_env false) (example_env true) 3 ["old"]
           ["u.example"; "b.example"; "c.example"] 0).
  - intros name rrtype k. reflexivity.
  - apply example_env_rand_idx_ok.
  - apply example_env_rand_idx_ok.
  - simpl. lia.
Defined.

(** C10. Whenever a call accepts, the record set it accepts is not empty,
    with one hostname as with several. *)
Theorem load_accept_nonempty (env : oracle) (fuel : nat)
    (good_records dns_urls : list string) (k : nat) (accepted : list string)
    (Haccept : (run env (load_txt_records_from_dns fuel good_records dns_urls) k).1 =
               Some (true, accepted)) :
  accepted <> [].
Proof.
  destruct (decide (dns_urls = [])) as [->|Hne]; [discriminate|].
  rewrite load_run in Haccept by exact Hne.
  pose proof (answers_length env dns_urls (S k)) as (H1 & H2 & H3).
  destruct (answers env dns_urls (S k)) as [[records avail] valid]. cbn [fst snd] in *.
  unfold after_wait in Haccept.
  destruct (clear_loop fuel dns_urls avail valid _ _ records) as [cleared|] eqn:Hloop;
    [|discriminate].
  apply clear_loop_length in Hloop. cbn [mbind option_bind] in Haccept.
  eapply quorum_accept_nonempty; [|exact Haccept]. lia.
Qed.

Lemma load_accept_nonempty_witness :
  (run (example_env true)
     (load_txt_records_from_dns 2 ["old"] ["b.example"; "c.example"]) 0).1 =
    Some (true, ["a"; "b"]) /\
  ["a"; "b"] <> ([] : list string).
Proof.
  split; [reflexivity|].
  apply (load_accept_nonempty (example_env true) 2 ["old"] ["b.example"; "c.example"] 0).
  reflexivity.
Defined.

End LoadTxtRecords.

(* ================================================================== *)
(** * The examples of the specification, evaluated on the code *)

Section Examples.

Example address_of_length_95 :
  address_from_txt_record
    ("oa1:xmr recipient_address=" +:+ sample_address 95 +:+ "; recipient_name=Donations;")
  = sample_address 95.
Proof. vm_compute. reflexivity. Qed.

Example address_of_length_106 :
  address_from_txt_record
    ("v=spf1 oa1:xmr recipient_address=" +:+ sample_address 106 +:+ ";")
  = sample_address 106.
Proof. vm_compute. reflexivity. Qed.

Example address_of_other_length :
  address_from_txt_record ("oa1:xmr recipient_address=" +:+ sample_address 96 +:+ ";")
  = EmptyString.
Proof. vm_compute. reflexivity. Qed.

Example address_without_marker :
  address_from_txt_record ("recipient_address=" +:+ sample_address 95 +:+ ";") = EmptyString.
Proof. vm_compute. reflexivity. Qed.

(** Only the first key after the marker is looked at. *)
Example address_behind_a_second_key :
  address_from_txt_record
    ("oa1:xmr recipient_address=none; recipient_address=" +:+ sample_address 95 +:+ ";")
  = EmptyString.
Proof. vm_compute. reflexivity. Qed.

Example records_match_in_any_order :
  dns_records_match ["a"; "b"] ["b"; "a"] = true /\
  dns_records_match ["a"; "b"] ["a"; "b"; "b"] = false.
Proof. split; reflexivity. Qed.

(** With a repeated record the test is not symmetric. *)
Example records_match_one_way :
  dns_records_match ["a"; "a"] ["a"; "b"] = true /\
  dns_records_match ["a"; "b"] ["a"; "a"] = false.
Proof. split; reflexivity. Qed.

Example identifier_transform :
  get_dns_format_from_oa_address "alice@example.com" = "alice.example.com" /\
  get_dns_format_from_oa_address "bob.example.com" = "bob.example.com".
Proof. split; reflexivity. Qed.

Example two_sources_agree :
  (run (example_env false)
     (load_txt_records_from_dns 2 [] ["b.example"; "c.example"]) 0).1
  = Some (true, ["a"; "b"]).
Proof. reflexivity. Qed.

Example two_sources_disagree :
  (run (example_env false)
     (load_txt_records_from_dns 2 ["old"] ["b.example"; "d.example"]) 0).1
  = Some (false, ["old"]).
Proof. reflexivity. Qed.

Example first_and_third_source_agree :
  (run (example_env true)
     (load_txt_records_from_dns 3 [] ["b.example"; "d.example"; "c.example"]) 0).1
  = Some (true, ["a"; "b"]) /\
  (run (example_env true)
     (load_txt_records_from_dns 3 [] ["b.example"; "u.example"; "c.example"]) 0).1
  = Some (true, ["a"; "b"]).
Proof. split; reflexivity. Qed.

Example lookup_without_candidate :
  run (example_env false) (get_account_address_as_str_from_url "b@example") 0
  = ((EmptyString, true), [UbResolve "b.example" DNS_TYPE_TXT]).
Proof. reflexivity. Qed.

End Examples.

(* ================================================================== *)
(** * RecordDecoder: further properties *)

Section DecoderFacts.

Lemma ipv4_to_string_payload (payload : list Byte.byte) :
  ipv4_to_string payload (length payload) =
  InBounds (if at_least 4 payload then Some (groups "." (take 4 payload)) else None).
Proof.
  unfold ipv4_to_string, at_least. destruct (Nat.ltb_spec (length payload) 4) as [Hlt|Hge].
  - rewrite read_string_in by lia. destruct (Nat.leb_spec 4 (length payload)); [lia|reflexivity].
  - destruct (Nat.leb_spec 4 (length payload)); [|lia].
    do 4 (destruct payload as [|? payload]; [simpl in Hge; lia|]). reflexivity.
Qed.

Lemma ipv6_to_string_payload (payload : list Byte.byte) :
  ipv6_to_string payload (length payload) =
  InBounds (if at_least 8 payload then Some (groups ":" (take 8 payload)) else None).
Proof.
  unfold ipv6_to_string, at_least. destruct (Nat.ltb_spec (length payload) 8) as [Hlt|Hge].
  - rewrite read_string_in by lia. destruct (Nat.leb_spec 8 (length payload)); [lia|reflexivity].
  - destruct (Nat.leb_spec 8 (length payload)); [|lia].
    do 8 (destruct payload as [|? payload]; [simpl in Hge; lia|]). reflexivity.
Qed.

Lemma txt_to_string_payload (payload : list Byte.byte) :
  txt_to_string payload (length payload) =
  InBounds (if at_least 1 payload then Some (txt_text payload) else None).
Proof.
  unfold txt_to_string, at_least, txt_text. destruct payload as [|b payload]; [reflexivity|].
  cbn [length Nat.eqb Nat.leb Nat.sub]. rewrite Nat.sub_0_r.
  rewrite read_string_in by (cbn [length]; lia).
  change (drop 1 (b :: payload)) with payload.
  rewrite take_ge by lia. reflexivity.
Qed.

Lemma digits_only (d : Decimal.uint) (c : ascii) :
  contains_char (NilEmpty.string_of_uint d) c -> is_digit c.
Proof.
  unfold contains_char, is_digit.
  induction d as [|d IH|d IH|d IH|d IH|d IH|d IH|d IH|d IH|d IH|d IH]; simpl;
    [tauto|..]; (intros [<-|H]; [tauto|]); specialize (IH H); simpl in IH; tauto.
Qed.

(** A number is written with decimal digits only. *)
Lemma dec_digits (n : nat) (c : ascii) : contains_char (dec n) c -> is_digit c.
Proof.
  unfold dec, NilZero.string_of_uint.
  destruct (Nat.to_uint n) eqn:E; try (rewrite <- E; apply digits_only).
  unfold contains_char, is_digit. simpl. tauto.
Qed.

Lemma dec_inj (n m : nat) : dec n = dec m -> n = m.
Proof.
  intros H. pose proof (dec_decimal n) as Hn. rewrite H, dec_decimal in Hn. congruence.
Qed.

Lemma octet_inj (b b' : Byte.byte) : Byte.to_nat b = Byte.to_nat b' -> b = b'.
Proof.
  intros H. pose proof (Byte.of_to_nat b) as Hb. rewrite H, Byte.of_to_nat in Hb. congruence.
Qed.

Lemma append_sep_inj (c : ascii) : forall s1 s2 t1 t2 : string,
  ~ contains_char s1 c -> ~ contains_char s2 c ->
  s1 +:+ String c t1 = s2 +:+ String c t2 -> s1 = s2 /\ t1 = t2.
Proof.
  unfold contains_char.
  induction s1 as [|a s1 IH]; intros [|b s2] t1 t2 H1 H2; simpl in *.
  - intros [= ->]. auto.
  - intros [= -> _]. tauto.
  - intros [= -> _]. tauto.
  - intros Heq. injection Heq as -> Heq.
    apply IH in Heq; [|tauto|tauto]. destruct Heq as [-> ->]. auto.
Qed.

(** The rendering in groups can be read back: two lists of as many bytes
    with the same rendering are the same. *)
Lemma groups_inj (c : ascii) : ~ is_digit c ->
  forall l l' : list Byte.byte, length l = length l' ->
  groups (String c EmptyString) l = groups (String c EmptyString) l' -> l = l'.
Proof.
  intros Hc. unfold groups.
  induction l as [|x l IH]; intros [|x' l'] Hlen; simpl in Hlen; try lia; [reflexivity|].
  destruct l as [|y l], l' as [|y' l']; simpl in Hlen; try lia.
  - simpl. intros H. apply dec_inj, octet_inj in H. congruence.
  - cbn [map String.concat]. cbn [map] in IH.
    change (?s +:+ String c EmptyString +:+ ?t) with (s +:+ String c t).
    intros H. apply append_sep_inj in H as [Hx Ht].
    + apply dec_inj, octet_inj in Hx. subst x'. f_equal.
      apply (IH (y' :: l')); [simpl; lia|exact Ht].
    + intros Hin. apply Hc. eapply dec_digits, Hin.
    + intros Hin. apply Hc. eapply dec_digits, Hin.
Qed.

(** Decoded A records tell the addresses apart: two payloads that decode
    to the same text have the same first four bytes. *)
Theorem ipv4_to_string_injective (payload payload' : list Byte.byte)
    (Hlen : 4 <= length payload) (Hlen' : 4 <= length payload')
    (Hsame : ipv4_to_string payload (length payload) =
             ipv4_to_string payload' (length payload')) :
  take 4 payload = take 4 payload'.
Proof.
  rewrite !ipv4_to_string_payload in Hsame. unfold at_least in Hsame.
  destruct (Nat.leb_spec 4 (length payload)); [|lia].
  destruct (Nat.leb_spec 4 (length payload')); [|lia].
  injection Hsame as Hsame. apply (groups_inj "."%char) in Hsame; [exact Hsame| |].
  - unfold is_digit. simpl. intros Hd.
    repeat (destruct Hd as [Hd|Hd]; [discriminate|]). exact Hd.
  - rewrite !length_take. lia.
Qed.

Lemma ipv4_to_string_injective_witness :
  take 4 [Byte.x0a; Byte.x00; Byte.x00; Byte.x01; Byte.xff] =
  take 4 [Byte.x0a; Byte.x00; Byte.x00; Byte.x01].
Proof.
  apply ipv4_to_string_injective; [simpl; lia|simpl; lia|reflexivity].
Defined.

(** Decoded AAAA records: two payloads that decode to the same text have
    the same first eight bytes. *)
Theorem ipv6_to_string_injective (payload payload' : list Byte.byte)
    (Hlen : 8 <= length payload) (Hlen' : 8 <= length payload')
    (Hsame : ipv6_to_string payload (length payload) =
             ipv6_to_string payload' (length payload')) :
  take 8 payload = take 8 payload'.
Proof.
  rewrite !ipv6_to_string_payload in Hsame. unfold at_least in Hsame.
  destruct (Nat.leb_spec 8 (length payload)); [|lia].
  destruct (Nat.leb_spec 8 (length payload')); [|lia].
  injection Hsame as Hsame. apply (groups_inj ":"%char) in Hsame; [exact Hsame| |].
  - unfold is_digit. simpl. intros Hd.
    repeat (destruct Hd as [Hd|Hd]; [discriminate|]). exact Hd.
  - rewrite !length_take. lia.
Qed.

Lemma ipv6_to_string_injective_witness :
  take 8 [Byte.x20; Byte.x01; Byte.x0d; Byte.xb8; Byte.x00; Byte.x00; Byte.x00; Byte.x01;
          Byte.x00] =
  take 8 [Byte.x20; Byte.x01; Byte.x0d; Byte.xb8; Byte.x00; Byte.x00; Byte.x00; Byte.x01].
Proof.
  apply ipv6_to_string_injective; [simpl; lia|simpl; lia|reflexivity].
Defined.

(** The first byte of a TXT payload is dropped without being read as a
    length: whatever that byte is, the decoder returns all the bytes after
    it, so any text is recovered from a payload that carries it. *)
Theorem txt_to_string_round_trip (b : Byte.byte) (text : string) :
  txt_to_string (b :: String.list_byte_of_string text)
    (length (b :: String.list_byte_of_string text)) = InBounds (Some text).
Proof.
  rewrite txt_to_string_payload. unfold at_least, txt_text. cbn [length Nat.leb].
  change (drop 1 (b :: String.list_byte_of_string text))
    with (String.list_byte_of_string text).
  rewrite String.string_of_list_byte_of_string. reflexivity.
Qed.

End DecoderFacts.

(* ================================================================== *)
(** * ResolverContext: further properties *)

Section ResolverFacts.

Lemma c_str_no_nul (s : string) : ~ contains_char (c_str s) Ascii.zero.
Proof.
  unfold contains_char. induction s as [|a s IH]; simpl; [tauto|].
  destruct (Ascii.eqb_spec a Ascii.zero) as [->|Hne]; simpl; [tauto|].
  intros [H|H]; [congruence|tauto].
Qed.

Lemma strchr_found (s : string) (c : ascii) :
  contains_char s c -> exists p, strchr s c = Some p.
Proof.
  unfold contains_char. induction s as [|a s IH]; simpl; [tauto|].
  destruct (Ascii.eqb_spec a c) as [->|Hne]; [eauto|].
  intros [H|H]; [congruence|]. destruct (IH H) as [p ->]. simpl. eauto.
Qed.

Lemma check_address_syntax_spec (addr : string) :
  check_address_syntax addr = true <-> contains_char addr "."%char.
Proof.
  unfold check_address_syntax. split.
  - destruct (strchr addr ".") as [p|] eqn:E; [|discriminate].
    intros _. eapply strchr_present, E.
  - intros H. destruct (strchr_found _ _ H) as [p ->]. reflexivity.
Qed.

Lemma get_record_requests (env : oracle) (url : string) (rrtype : record_type)
    (reader : list Byte.byte -> nat -> access (option string)) (k : nat) :
  (run env (get_record url rrtype reader) k).2 =
  if check_address_syntax (c_str url) then [UbResolve (c_str url) rrtype] else [].
Proof.
  unfold get_record. destruct (check_address_syntax (c_str url)); simpl; [|reflexivity].
  destruct (env (UbResolve (c_str url) rrtype) k); reflexivity.
Qed.

(** A lookup never reports a DNSSEC-valid answer without reporting DNSSEC
    as available. *)
Theorem get_record_valid_available (env : oracle) (url : string) (rrtype : record_type)
    (reader : list Byte.byte -> nat -> access (option string)) (k : nat)
    (Hvalid : (run env (get_record url rrtype reader) k).1.2 = true) :
  (run env (get_record url rrtype reader) k).1.1.2 = true.
Proof.
  revert Hvalid. unfold get_record.
  destruct (check_address_syntax (c_str url)); simpl; [|discriminate].
  destruct (env (UbResolve (c_str url) rrtype) k) as [result|]; simpl; [|discriminate].
  destruct (secure result), (bogus result); simpl; auto.
Qed.

Lemma get_record_valid_available_witness :
  (run (example_env false) (get_record "b.example" DNS_TYPE_TXT txt_to_string) 0).1.1.2 = true.
Proof. apply get_record_valid_available. reflexivity. Defined.

(** The resolver is asked at most once per lookup, and only for a name that
    has a ['.'] and no NUL byte: the name queried is the hostname up to its
    first NUL. A hostname without a ['.'] before its first NUL is answered
    locally with no record and both flags false. *)
Theorem get_record_query (env : oracle) (url : string) (rrtype : record_type)
    (reader : list Byte.byte -> nat -> access (option string)) (k : nat) :
  (contains_char (c_str url) "."%char /\ ~ contains_char (c_str url) Ascii.zero /\
   (run env (get_record url rrtype reader) k).2 = [UbResolve (c_str url) rrtype]) \/
  (~ contains_char (c_str url) "."%char /\
   run env (get_record url rrtype reader) k = (([], false, false), [])).
Proof.
  destruct (check_address_syntax (c_str url)) eqn:E.
  - left. split; [apply check_address_syntax_spec, E|]. split; [apply c_str_no_nul|].
    rewrite get_record_requests, E. reflexivity.
  - right. split.
    + intros H. apply check_address_syntax_spec in H. congruence.
    + unfold get_record. rewrite E. reflexivity.
Qed.

Lemma read_records_decode (reader : list Byte.byte -> nat -> access (option string))
    (decodable : list Byte.byte -> bool) (text : list Byte.byte -> string) :
  (forall d, reader d (length d) = InBounds (if decodable d then Some (text d) else None)) ->
  forall payloads addresses,
  read_records reader payloads addresses =
  addresses ++ map text (List.filter decodable payloads).
Proof.
  intros Hreader. induction payloads as [|d payloads IH]; intros addresses; simpl.
  - rewrite app_nil_r. reflexivity.
  - rewrite Hreader. destruct (decodable d); simpl.
    + rewrite IH, <- app_assoc. reflexivity.
    + apply IH.
Qed.

Lemma get_record_answered (env : oracle) (url : string) (rrtype : record_type)
    (reader : list Byte.byte -> nat -> access (option string)) (k : nat) (result : ub_result) :
  contains_char (c_str url) "."%char ->
  env (UbResolve (c_str url) rrtype) k = Some result ->
  (run env (get_record url rrtype reader) k).1.1.1 =
  if havedata result then read_records reader (data result) [] else [].
Proof.
  intros Hdot Hans. apply check_address_syntax_spec in Hdot.
  unfold get_record. rewrite Hdot. simpl. rewrite Hans. reflexivity.
Qed.

(** The records a lookup returns are the payloads of the answer that
    decode, decoded, in the order of the answer; a payload below the
    minimum length of its type is dropped and the others are kept. *)
Theorem get_record_decodes (env : oracle) (url : string) (k : nat)
    (Hdot : contains_char (c_str url) "."%char) :
  (forall result, env (UbResolve (c_str url) DNS_TYPE_TXT) k = Some result ->
     (run env (get_txt_record url) k).1.1.1 =
     if havedata result then map txt_text (List.filter (at_least 1) (data result)) else []) /\
  (forall result, env (UbResolve (c_str url) DNS_TYPE_A) k = Some result ->
     (run env (get_ipv4 url) k).1.1.1 =
     if havedata result
     then map (fun d => groups "." (take 4 d)) (List.filter (at_least 4) (data result))
     else []) /\
  (forall result, env (UbResolve (c_str url) DNS_TYPE_AAAA) k = Some result ->
     (run env (get_ipv6 url) k).1.1.1 =
     if havedata result
     then map (fun d => groups ":" (take 8 d)) (List.filter (at_least 8) (data result))
     else []).
Proof.
  repeat split; intros result Hans.
  - unfold get_txt_record. rewrite (get_record_answered _ _ _ _ _ result Hdot Hans).
    destruct (havedata result); [|reflexivity].
    apply (read_records_decode txt_to_string (at_least 1) txt_text txt_to_string_payload).
  - unfold get_ipv4. rewrite (get_record_answered _ _ _ _ _ result Hdot Hans).
    destruct (havedata result); [|reflexivity].
    apply (read_records_decode ipv4_to_string (at_least 4) _ ipv4_to_string_payload).
  - unfold get_ipv6. rewrite (get_record_answered _ _ _ _ _ result Hdot Hans).
    destruct (havedata result); [|reflexivity].
    apply (read_records_decode ipv6_to_string (at_least 8) _ ipv6_to_string_payload).
Qed.

Lemma get_record_decodes_witness :
  (run (example_env false) (get_txt_record "b.example") 0).1.1.1 = ["a"; "b"].
Proof.
  assert (Hdot : contains_char (c_str "b.example") "."%char).
  { unfold contains_char. simpl. tauto. }
  destruct (get_record_decodes (example_env false) "b.example" 0 Hdot) as [Htxt _].
  exact (Htxt _ eq_refl).
Defined.

End ResolverFacts.

(* ================================================================== *)
(** * AddressLookupService: further properties *)

Section LookupFacts.

Lemma substring_all (s : string) : String.substring 0 (String.length s) s = s.
Proof. induction s as [|a s IH]; simpl; [reflexivity|]. rewrite IH. reflexivity. Qed.

Lemma format_at (s : string) :
  get_dns_format_from_oa_address (String "@" s) = String "." s.
Proof.
  unfold get_dns_format_from_oa_address, find, substr. simpl.
  replace (String.prefix EmptyString s) with true by (destruct s; reflexivity).
  simpl. rewrite Nat.sub_0_r, substring_all. reflexivity.
Qed.

Lemma format_cons (a : ascii) (s : string) : a <> "@"%char ->
  get_dns_format_from_oa_address (String a s) =
  String a (get_dns_format_from_oa_address s).
Proof.
  intros Hne. unfold get_dns_format_from_oa_address, find, substr.
  cbn [String.index String.prefix].
  destruct (Ascii.ascii_dec "@" a) as [E|_]; [congruence|].
  destruct (String.index 0 "@" s) as [n|]; [|reflexivity].
  cbn [String.substring String.append String.length Nat.add Nat.sub]. reflexivity.
Qed.

Lemma format_no_at (s : string) :
  ~ contains_char s "@"%char -> get_dns_format_from_oa_address s = s.
Proof.
  unfold contains_char. induction s as [|a s IH]; simpl; intros H; [reflexivity|].
  rewrite format_cons by (intros ->; tauto). rewrite IH by tauto. reflexivity.
Qed.

(** The DNS form of an identifier: without ['@'] the identifier itself;
    otherwise the identifier with its first ['@'] replaced by ['.'] and
    every other byte, later ['@'] included, left as it is. The length never
    changes. *)
Theorem get_dns_format_from_oa_address_spec (oa_addr : string) :
  ((~ contains_char oa_addr "@"%char /\
    get_dns_format_from_oa_address oa_addr = oa_addr) \/
   (exists name domain,
      oa_addr = name +:+ String "@" domain /\ ~ contains_char name "@"%char /\
      get_dns_format_from_oa_address oa_addr = name +:+ String "." domain)) /\
  String.length (get_dns_format_from_oa_address oa_addr) = String.length oa_addr.
Proof.
  induction oa_addr as [|a s [IH IHlen]].
  - split; [left; split; [unfold contains_char; simpl; tauto|reflexivity]|reflexivity].
  - destruct (Ascii.ascii_dec a "@") as [->|Hne].
    + rewrite format_at. split; [|reflexivity]. right. exists EmptyString, s.
      split; [reflexivity|]. split; [unfold contains_char; simpl; tauto|reflexivity].
    + rewrite format_cons by exact Hne. split; [|simpl; rewrite IHlen; reflexivity].
      destruct IH as [[Hno ->]|(name & domain & Hs & Hno & ->)].
      * left. split; [|reflexivity]. unfold contains_char in *. simpl. intros [H|H]; tauto.
      * right. exists (String a name), domain. split; [rewrite Hs at 1; reflexivity|].
        split; [|reflexivity]. unfold contains_char in *. simpl. intros [H|H]; tauto.
Qed.

Lemma in_get (s : string) (c : ascii) :
  contains_char s c -> exists i, String.get i s = Some c.
Proof.
  unfold contains_char. induction s as [|a s IH]; simpl; [tauto|].
  intros [->|H]; [exists 0; reflexivity|]. destruct (IH H) as [i Hi]. exists (S i). exact Hi.
Qed.

Lemma get_occurs (s : string) : forall (p : nat) (c : ascii),
  String.get p s = Some c -> occurs_at (String c EmptyString) s p.
Proof.
  unfold occurs_at. induction s as [|a s IH]; intros [|p] c; simpl; try discriminate.
  - intros [= ->]. destruct s; reflexivity.
  - intros H. apply IH in H. exact H.
Qed.

Lemma address_length_cases (s : string) :
  address_from_txt_record s = EmptyString \/ address_length_ok (address_from_txt_record s).
Proof.
  destruct (String.string_dec (address_from_txt_record s) EmptyString) as [E|NE];
    [left; exact E|right].
  destruct (address_found s _ eq_refl NE) as (p & q & r & _ & _ & _ & _ & HL). exact HL.
Qed.

(** An extracted address is empty or 95 or 106 bytes long, and never
    contains a [;]. *)
Theorem address_from_txt_record_shape (s : string) :
  (address_from_txt_record s = EmptyString \/
   address_length_ok (address_from_txt_record s)) /\
  ~ contains_char (address_from_txt_record s) ";"%char.
Proof.
  destruct (String.string_dec (address_from_txt_record s) EmptyString) as [E|NE].
  { rewrite E. split; [left; reflexivity|]. unfold contains_char. simpl. tauto. }
  destruct (address_found s _ eq_refl NE) as (p & q & r & _ & _ & Hr & HX & HL).
  split; [right; exact HL|]. intros Hin. apply in_get in Hin as [i Hi].
  destruct (Nat.lt_ge_cases i (r - (q + 18))) as [Hlt|Hge].
  - rewrite HX, String.substring_correct1 in Hi by exact Hlt.
    apply get_occurs in Hi. destruct Hr as (_ & _ & Hmin).
    apply (Hmin (i + (q + 18))); [lia|exact Hi].
  - rewrite HX, String.substring_correct2 in Hi by exact Hge. discriminate.
Qed.

Lemma collect_addresses_filter (records : list string) : forall addresses,
  collect_addresses records addresses =
  addresses ++ List.filter (fun a => negb (String.length a =? 0))
                 (map address_from_txt_record records).
Proof.
  induction records as [|rec records IH]; intros addresses; simpl.
  - rewrite app_nil_r. reflexivity.
  - destruct (negb (String.length (address_from_txt_record rec) =? 0)).
    + rewrite IH, <- app_assoc. reflexivity.
    + apply IH.
Qed.

Lemma get_record_flags (env : oracle) (url : string) (rrtype : record_type)
    (reader : list Byte.byte -> nat -> access (option string)) (k : nat) :
  (run env (get_record url rrtype reader) k).1.2 = true ->
  (run env (get_record url rrtype reader) k).1.1.2 = true.
Proof.
  unfold get_record.
  destruct (check_address_syntax (c_str url)); simpl; [|discriminate].
  destruct (env (UbResolve (c_str url) rrtype) k) as [result|]; simpl; [|discriminate].
  destruct (secure result), (bogus result); simpl; auto.
Qed.

Lemma addresses_from_url_run (env : oracle) (url : string) (k : nat) :
  run env (addresses_from_url url) k =
  let found := run env (get_txt_record (get_dns_format_from_oa_address url)) k in
  ((collect_addresses found.1.1.1 [], found.1.1.2 && found.1.2), found.2).
Proof.
  unfold addresses_from_url. rewrite run_bind.
  destruct (run env (get_txt_record (get_dns_format_from_oa_address url)) k)
    as [[[records a] v] t].
  destruct a, v; simpl; rewrite app_nil_r; reflexivity.
Qed.

(** The candidates of an identifier are the addresses extracted from the
    TXT records of its DNS form, one per record that holds one, in the
    order of the records and with repetitions kept; each is 95 or 106 bytes
    long. The trust flag handed on is the resolver's DNSSEC-valid flag. *)
Theorem addresses_from_url_candidates (env : oracle) (url : string) (k : nat) :
  let found := run env (get_txt_record (get_dns_format_from_oa_address url)) k in
  let candidates := (run env (addresses_from_url url) k).1.1 in
  candidates = List.filter (fun a => negb (String.length a =? 0))
                 (map address_from_txt_record found.1.1.1) /\
  Forall address_length_ok candidates /\
  (run env (addresses_from_url url) k).1.2 = found.1.2.
Proof.
  intros found candidates. subst candidates. rewrite addresses_from_url_run. fold found.
  cbn [fst snd]. rewrite collect_addresses_filter. cbn [app]. split; [reflexivity|]. split.
  - apply Forall_forall. intros a Ha. apply list_elem_of_In, List.filter_In in Ha as [Hin Hne].
    apply List.in_map_iff in Hin as (rec & <- & _).
    destruct (address_length_cases rec) as [E|HL]; [|exact HL].
    rewrite E in Hne. discriminate.
  - pose proof (get_record_flags env (get_dns_format_from_oa_address url) DNS_TYPE_TXT
                  txt_to_string k) as Hflags.
    fold (get_txt_record (get_dns_format_from_oa_address url)) in Hflags. fold found in Hflags.
    destruct (found.1.2); [rewrite Hflags by reflexivity; reflexivity|apply andb_false_r].
Qed.

End LookupFacts.

Section LookupRuns.

Lemma collect_addresses_ok (records : list string) :
  Forall address_length_ok (collect_addresses records []).
Proof.
  rewrite collect_addresses_filter. cbn [app]. apply Forall_forall. intros a Ha.
  apply list_elem_of_In, List.filter_In in Ha as [Hin Hne].
  apply List.in_map_iff in Hin as (rec & <- & _).
  destruct (address_length_cases rec) as [E|HL]; [|exact HL].
  rewrite E in Hne. discriminate.
Qed.

Lemma lookup_run (env : oracle) (url : string) (k : nat) :
  run env (get_account_address_as_str_from_url url) k =
  let found := run env (addresses_from_url url) k in
  if decide (found.1.1 = []) then ((EmptyString, found.1.2), found.2)
  else ((env (DnsConfirm url found.1.1 found.1.2) (k + length found.2), found.1.2),
        found.2 ++ [DnsConfirm url found.1.1 found.1.2]).
Proof.
  unfold get_account_address_as_str_from_url. rewrite run_bind.
  destruct (run env (addresses_from_url url) k) as [[addresses valid] t]. cbn [fst snd].
  destruct (decide (addresses = [])); simpl; [rewrite app_nil_r|]; reflexivity.
Qed.

(** An identifier with neither ['@'] nor ['.'] is turned down locally: the
    lookup returns the empty string and a false trust flag, and neither the
    resolver nor the confirmation callback is called. *)
Theorem lookup_of_plain_name (env : oracle) (url : string) (k : nat)
    (Hat : ~ contains_char url "@"%char) (Hdot : ~ contains_char url "."%char) :
  run env (get_account_address_as_str_from_url url) k = ((EmptyString, false), []).
Proof.
  rewrite lookup_run, addresses_from_url_run, format_no_at by exact Hat.
  unfold get_txt_record, get_record.
  rewrite check_address_syntax_no_dot by exact Hdot. reflexivity.
Qed.

Lemma lookup_of_plain_name_witness :
  run (example_env false) (get_account_address_as_str_from_url "localhost") 0 =
  ((EmptyString, false), []).
Proof.
  apply lookup_of_plain_name; intros H; vm_compute in H;
    repeat (destruct H as [H|H]; [discriminate|]); exact H.
Defined.

(** What the confirmation callback is called with: the identifier as the
    caller gave it, and the candidates extracted for it, which are at least
    one and each 95 or 106 bytes long. *)
Theorem confirm_arguments (env : oracle) (url : string) (k : nat)
    (url' : string) (addresses : list string) (dnssec_valid : bool)
    (Hcall : In (DnsConfirm url' addresses dnssec_valid)
                (run env (get_account_address_as_str_from_url url) k).2) :
  url' = url /\ addresses <> [] /\ Forall address_length_ok addresses /\
  addresses = (run env (addresses_from_url url) k).1.1.
Proof.
  rewrite lookup_run in Hcall. cbn zeta in Hcall.
  assert (Hq : ~ In (DnsConfirm url' addresses dnssec_valid)
                 (run env (addresses_from_url url) k).2).
  { rewrite addresses_from_url_run. cbn [snd]. unfold get_txt_record.
    rewrite get_record_requests.
    destruct (check_address_syntax _); simpl; [intros [H|[]]; discriminate|tauto]. }
  assert (Hok : Forall address_length_ok (run env (addresses_from_url url) k).1.1).
  { rewrite addresses_from_url_run. cbn [fst]. apply collect_addresses_ok. }
  destruct (decide ((run env (addresses_from_url url) k).1.1 = [])) as [E|NE];
    cbn [snd] in Hcall; [contradiction|].
  apply List.in_app_iff in Hcall as [Hin|[Heq|[]]]; [contradiction|].
  injection Heq as <- <- <-. auto.
Qed.

Lemma confirm_arguments_witness :
  [sample_address 95] <> [] /\ Forall address_length_ok [sample_address 95].
Proof.
  destruct (confirm_arguments wallet_env "donate@example" 0
              "donate@example" [sample_address 95] true) as (_ & Hne & Hok & _).
  - vm_compute. right. left. reflexivity.
  - split; [exact Hne|exact Hok].
Defined.

(** A lookup that finds an address hands the choice to the callback and
    returns what the callback returns. *)
Example lookup_with_candidate :
  run wallet_env (get_account_address_as_str_from_url "donate@example") 0 =
  ((sample_address 95, true),
   [UbResolve "donate.example" DNS_TYPE_TXT;
    DnsConfirm "donate@example" [sample_address 95] true]).
Proof. vm_compute. reflexivity. Qed.

End LookupRuns.

(* ================================================================== *)
(** * QuorumResolver: further properties *)

Section MatchFacts.

(** [dns_records_match] is reflexive and transitive. *)
Theorem dns_records_match_preorder (a b c : list string) :
  dns_records_match a a = true /\
  (dns_records_match a b = true -> dns_records_match b c = true ->
   dns_records_match a c = true).
Proof.
  split.
  - apply dns_records_match_spec. split; [reflexivity|auto].
  - rewrite !dns_records_match_spec. intros [Hl Hi] [Hl' Hi']. split; [congruence|auto].
Qed.

Lemma covered_by_perm (a a' b b' : list string) :
  Permutation a a' -> Permutation b b' -> covered_by a b -> covered_by a' b'.
Proof.
  intros Ha Hb [Hl Hi]. split.
  - rewrite <- (Permutation_length Ha), <- (Permutation_length Hb). exact Hl.
  - intros x Hx. apply (Permutation_in x Hb), Hi.
    apply (Permutation_in x (Permutation_sym Ha)), Hx.
Qed.

(** The order of the records in either set does not matter to
    [dns_records_match]. *)
Theorem dns_records_match_perm (a a' b b' : list string)
    (Ha : Permutation a a') (Hb : Permutation b b') :
  dns_records_match a b = dns_records_match a' b'.
Proof.
  destruct (dns_records_match a b) eqn:E, (dns_records_match a' b') eqn:E'; try reflexivity.
  - apply dns_records_match_spec, (covered_by_perm a a' b b' Ha Hb),
      dns_records_match_spec in E. congruence.
  - apply dns_records_match_spec,
      (covered_by_perm a' a b' b (Permutation_sym Ha) (Permutation_sym Hb)),
      dns_records_match_spec in E'. congruence.
Qed.

Lemma dns_records_match_perm_witness :
  dns_records_match ["a"; "b"; "c"] ["x"; "y"] = dns_records_match ["c"; "a"; "b"] ["y"; "x"].
Proof.
  apply dns_records_match_perm.
  - apply Permutation_sym, (Permutation_cons_append ["a"; "b"] "c").
  - apply perm_swap.
Defined.

(** When the first record set has no repeated record, [dns_records_match]
    holds exactly when the second is a rearrangement of the first. *)
Theorem dns_records_match_nodup (a b : list string) (Hnd : List.NoDup a) :
  dns_records_match a b = true <-> Permutation a b.
Proof.
  rewrite dns_records_match_spec. split.
  - intros [Hl Hi]. apply NoDup_Permutation_bis; [exact Hnd|lia|exact Hi].
  - intros Hp. split; [apply Permutation_length, Hp|].
    intros x Hx. apply (Permutation_in x Hp), Hx.
Qed.

Lemma dns_records_match_nodup_witness :
  dns_records_match ["a"; "b"] ["b"; "a"] = true <-> Permutation ["a"; "b"] ["b"; "a"].
Proof.
  apply dns_records_match_nodup.
  apply List.NoDup_cons; [|apply List.NoDup_cons; [|apply List.NoDup_nil]].
  - intros [H|[]]. discriminate.
  - intros [].
Defined.

End MatchFacts.

Section LoadFacts.



Lemma discard_untrusted_length (st : slots) (n : nat) :
  slots_length st n -> length (discard_untrusted st) = n.
Proof.
  destruct st as [[records avail] valid]. intros (H1 & H2 & H3). cbn [fst snd] in *.
  unfold discard_untrusted. rewrite !length_zip_with. lia.
Qed.

(** A non-empty record set that is left after the clearing is the answer
    of a source with both flags true. *)
Lemma discard_untrusted_trusted (st : slots) (n i : nat) (r : list string) :
  slots_length st n -> discard_untrusted st !! i = Some r -> r <> [] ->
  trusted_answer st i r.
Proof.
  destruct st as [[records avail] valid]. intros (H1 & H2 & H3) Hi Hr. cbn [fst snd] in *.
  unfold trusted_answer. cbn [fst snd].
  unfold discard_untrusted in Hi. rewrite !lookup_zip_with in Hi.
  destruct (records !! i) as [r'|]; [|discriminate].
  destruct (avail !! i) as [[]|]; [| |discriminate];
    (destruct (valid !! i) as [[]|]; [| |discriminate]); simpl in Hi;
    injection Hi as <-; try contradiction. auto.
Qed.

Lemma trusted_discard_untrusted (st : slots) (i : nat) (r : list string) :
  trusted_answer st i r -> discard_untrusted st !! i = Some r.
Proof.
  destruct st as [[records avail] valid]. intros (H1 & H2 & H3). cbn [fst snd] in *.
  unfold discard_untrusted. rewrite !lookup_zip_with, H1, H2, H3. reflexivity.
Qed.

Lemma quorum_accept_lookup (fuel : nat) (good_records dns_urls : list string)
    (records : list (list string)) (accepted : list string) :
  length records = length dns_urls ->
  quorum fuel good_records dns_urls records = Some (true, accepted) ->
  exists i, records !! i = Some accepted /\ accepted <> [].
Proof.
  intros Hlen Hq.
  assert (Hne : accepted <> []) by (eapply quorum_accept_nonempty; eassumption).
  revert Hq. unfold quorum.
  destruct (count_valid_records records 0 =? 0); [discriminate|].
  destruct (length dns_urls =? 1).
  - destruct (records !! 0) as [r|] eqn:E; [|discriminate]. cbn [mbind option_bind].
    intros [= <-]. exists 0. auto.
  - destruct (scan_i fuel records 0 (-1)%Z) as [g|]; [|discriminate]. cbn [mbind option_bind].
    destruct (g <? 0)%Z; [discriminate|].
    destruct (records !! Z.to_nat g) as [r|] eqn:E; [|discriminate]. cbn [mbind option_bind].
    intros [= <-]. exists (Z.to_nat g). auto.
Qed.

(** The clearing leaves the record set of every source whose two flags are
    true exactly as the source answered it. *)
Theorem trusted_sources_kept (env : oracle) (fuel : nat)
    (good_records dns_urls : list string) (k : nat)
    (Hne : dns_urls <> []) (Hrand : rand_idx_ok env) (Hfuel : length dns_urls <= fuel) :
  let first_index := env (RandIdx (length dns_urls)) k in
  let st := answers env dns_urls (S k) in
  exists cleared,
    clear_loop fuel dns_urls st.1.2 st.2 first_index first_index st.1.1 = Some cleared /\
    length cleared = length dns_urls /\
    forall i r, trusted_answer st i r -> cleared !! i = Some r.
Proof.
  intros first_index st. exists (discard_untrusted st).
  pose proof (answers_length env dns_urls (S k)) as Hst. fold st in Hst.
  assert (Hfirst : first_index < length dns_urls).
  { apply Hrand. destruct dns_urls; [contradiction|simpl; lia]. }
  split; [|split].
  - destruct Hst as (H1 & H2 & H3). destruct st as [[records avail] valid].
    cbn [fst snd] in *. apply clear_loop_correct; assumption.
  - apply discard_untrusted_length, Hst.
  - intros i r. apply trusted_discard_untrusted.
Qed.

Lemma trusted_sources_kept_witness :
  exists cleared,
    clear_loop 2 ["u.example"; "b.example"] [false; true] [false; true] 0 0
      [["a"; "b"]; ["a"; "b"]] = Some cleared /\
    cleared !! 1 = Some ["a"; "b"].
Proof.
  destruct (trusted_sources_kept (example_env false) 2 ["old"]
              ["u.example"; "b.example"] 0 ltac:(discriminate)
              (example_env_rand_idx_ok false) ltac:(simpl; lia))
    as (cleared & Hloop & _ & Hkeep).
  exists cleared. split; [exact Hloop|].
  apply Hkeep. repeat split.
Defined.

(** Whatever a call accepts is the whole answer of one source, and that
    source had both DNSSEC flags true: records of a source that is not
    DNSSEC-valid are never accepted. *)
Theorem accepted_from_trusted_source (env : oracle) (fuel : nat)
    (good_records dns_urls : list string) (k : nat) (accepted : list string)
    (Hrand : rand_idx_ok env) (Hfuel : length dns_urls <= fuel)
    (Haccept : (run env (load_txt_records_from_dns fuel good_records dns_urls) k).1 =
               Some (true, accepted)) :
  exists i, trusted_answer (answers env dns_urls (S k)) i accepted.
Proof.
  destruct (decide (dns_urls = [])) as [->|Hne]; [discriminate|].
  rewrite load_outcome in Haccept by assumption.
  pose proof (answers_length env dns_urls (S k)) as Hst.
  apply quorum_accept_lookup in Haccept as (i & Hi & Hr);
    [|apply discard_untrusted_length, Hst].
  exists i. eapply discard_untrusted_trusted; eassumption.
Qed.

Lemma accepted_from_trusted_source_witness :
  exists i, trusted_answer
              (answers (example_env true) ["u.example"; "b.example"; "c.example"] 1)
              i ["a"; "b"].
Proof.
  apply (accepted_from_trusted_source (example_env true) 3 ["old"]
           ["u.example"; "b.example"; "c.example"] 0).
  - apply example_env_rand_idx_ok.
  - simpl. lia.
  - reflexivity.
Defined.

(** With more than one hostname, what a call accepts is the answer of a
    DNSSEC-valid source, and a second DNSSEC-valid source, later in the
    list, answered as many records with every accepted record among them. *)
Theorem accepted_has_second_source (env : oracle) (fuel : nat)
    (good_records dns_urls : list string) (k : nat) (accepted : list string)
    (Hmany : 1 < length dns_urls) (Hrand : rand_idx_ok env)
    (Hfuel : length dns_urls <= fuel)
    (Haccept : (run env (load_txt_records_from_dns fuel good_records dns_urls) k).1 =
               Some (true, accepted)) :
  exists i j records_j,
    i < j /\
    trusted_answer (answers env dns_urls (S k)) i accepted /\
    trusted_answer (answers env dns_urls (S k)) j records_j /\
    length records_j = length accepted /\
    forall record, In record accepted -> In record records_j.
Proof.
  assert (Hne : dns_urls <> []) by (intros ->; simpl in Hmany; lia).
  rewrite load_outcome in Haccept by assumption.
  pose proof (answers_length env dns_urls (S k)) as Hst.
  destruct (quorum_pairs fuel good_records dns_urls
              (discard_untrusted (answers env dns_urls (S k))) Hmany
              (discard_untrusted_length _ _ Hst) Hfuel)
    as [(i & j & ri & [(Hij & ri' & rj & Hi & Hj & Hri & Hrj & Hl & Hin) _] & Hi' & Hout)
       |[_ Hout]]; rewrite Hout in Haccept; [|discriminate].
  injection Haccept as <-. rewrite Hi in Hi'. injection Hi' as ->.
  exists i, j, rj. split; [exact Hij|].
  split; [eapply discard_untrusted_trusted; eassumption|].
  split; [eapply discard_untrusted_trusted; eassumption|]. auto.
Qed.

Lemma accepted_has_second_source_witness :
  exists i j records_j,
    i < j /\
    trusted_answer (answers (example_env false) ["b.example"; "d.example"; "c.example"] 1)
      i ["a"; "b"] /\
    trusted_answer (answers (example_env false) ["b.example"; "d.example"; "c.example"] 1)
      j records_j /\
    length records_j = length ["a"; "b"] /\
    forall record, In record ["a"; "b"] -> In record records_j.
Proof.
  apply (accepted_has_second_source (example_env false) 3 ["old"]
           ["b.example"; "d.example"; "c.example"] 0).
  - simpl. lia.
  - apply example_env_rand_idx_ok.
  - simpl. lia.
  - reflexivity.
Defined.

(** With more than one hostname, a call rejects when no two DNSSEC-valid
    sources both answered records: one valid source alone is not accepted. *)
Theorem lone_source_rejected (env : oracle) (fuel : nat)
    (good_records dns_urls : list string) (k : nat)
    (Hmany : 1 < length dns_urls) (Hrand : rand_idx_ok env)
    (Hfuel : length dns_urls <= fuel)
    (Hlone : forall i j records_i records_j, i < j ->
               trusted_answer (answers env dns_urls (S k)) i records_i ->
               trusted_answer (answers env dns_urls (S k)) j records_j ->
               records_i = [] \/ records_j = []) :
  (run env (load_txt_records_from_dns fuel good_records dns_urls) k).1 =
  Some (false, good_records).
Proof.
  assert (Hne : dns_urls <> []) by (intros ->; simpl in Hmany; lia).
  rewrite load_outcome by assumption.
  pose proof (answers_length env dns_urls (S k)) as Hst.
  destruct (quorum_pairs fuel good_records dns_urls
              (discard_untrusted (answers env dns_urls (S k))) Hmany
              (discard_untrusted_length _ _ Hst) Hfuel)
    as [(i & j & ri & [(Hij & ri' & rj & Hi & Hj & Hri & Hrj & _) _] & _)|[_ Hout]];
    [|exact Hout].
  exfalso.
  destruct (Hlone i j ri' rj Hij) as [E|E]; try contradiction;
    eapply discard_untrusted_trusted; eassumption.
Qed.

Lemma lone_source_rejected_witness :
  (run (example_env false)
     (load_txt_records_from_dns 2 ["old"] ["b.example"; "u.example"]) 0).1 =
  Some (false, ["old"]).
Proof.
  apply (lone_source_rejected (example_env false) 2 ["old"] ["b.example"; "u.example"] 0).
  - simpl. lia.
  - apply example_env_rand_idx_ok.
  - simpl. lia.
  - intros i j ri rj Hij (_ & Hi & _) (_ & Hj & _). vm_compute in Hi, Hj.
    destruct j as [|[|j]]; [lia| |discriminate]. discriminate.
Defined.

End LoadFacts.

Section SameHostname.

Lemma get_txt_record_some_query (env : oracle) (url : string) (k : nat)
    (r : list string) (a v : bool) :
  (run env (get_txt_record url) k).1 = (r, a, v) -> r <> [] ->
  run env (get_txt_record url) k = ((r, a, v), [UbResolve (c_str url) DNS_TYPE_TXT]).
Proof.
  intros Hres Hr.
  pose proof (get_record_requests env url DNS_TYPE_TXT txt_to_string k) as Ht.
  fold (get_txt_record url) in Ht.
  destruct (check_address_syntax (c_str url)) eqn:E.
  - destruct (run env (get_txt_record url) k) as [res t]. cbn [fst snd] in *. congruence.
  - exfalso. revert Hres. unfold get_txt_record, get_record. rewrite E. simpl.
    intros [= <- _ _]. contradiction.
Qed.

(** The two agreeing sources need not be distinct hostnames: a hostname
    listed twice whose two queries bring the same DNSSEC-valid, non-empty
    answer is accepted. *)
Theorem same_hostname_twice (env : oracle) (fuel : nat) (good_records : list string)
    (url : string) (k : nat) (records_0 : list string)
    (Hrand : rand_idx_ok env) (Hfuel : 2 <= fuel)
    (Hfirst : (run env (get_txt_record url) (S k)).1 = (records_0, true, true))
    (Hsecond : (run env (get_txt_record url) (S (S k))).1 = (records_0, true, true))
    (Hsome : records_0 <> []) :
  (run env (load_txt_records_from_dns fuel good_records [url; url]) k).1 =
  Some (true, records_0).
Proof.
  rewrite load_outcome; [|discriminate|exact Hrand|exact Hfuel].
  assert (Hst : answers env [url; url] (S k) =
                ([records_0; records_0], [true; true], [true; true])).
  { unfold answers. rewrite submit_tasks_step.
    rewrite (get_txt_record_some_query env url (S k) records_0 true true Hfirst Hsome).
    cbn [length]. replace (S k + 1) with (S (S k)) by lia.
    rewrite submit_tasks_step.
    rewrite (get_txt_record_some_query env url (S (S k)) records_0 true true Hsecond Hsome).
    reflexivity. }
  rewrite Hst.
  change (discard_untrusted ([records_0; records_0], [true; true], [true; true]))
    with [records_0; records_0].
  destruct (quorum_pairs fuel good_records [url; url] [records_0; records_0]
              ltac:(simpl; lia) eq_refl Hfuel)
    as [(i & j & ri & [(Hij & ri' & rj & Hi & Hj & _) _] & Hi' & ->)|[Hno _]].
  - apply lookup_lt_Some in Hj. simpl in Hj.
    destruct i as [|i]; [|lia]. simpl in Hi'. congruence.
  - exfalso. apply (Hno 0 1). split; [lia|]. exists records_0, records_0.
    repeat split; auto.
Qed.

Lemma same_hostname_twice_witness :
  (run (example_env false)
     (load_txt_records_from_dns 2 ["old"] ["b.example"; "b.example"]) 0).1 =
  Some (true, ["a"; "b"]).
Proof.
  apply (same_hostname_twice (example_env false) 2 ["old"] "b.example" 0 ["a"; "b"]).
  - apply example_env_rand_idx_ok.
  - lia.
  - reflexivity.
  - reflexivity.
  - discriminate.
Defined.

End SameHostname.

(* ================================================================== *)
(** * Forwarder configuration: properties of [parse_dns_public] *)

Section ParseDnsPublic.

Local Arguments String.append !_ _ / : simpl nomatch.

Lemma append_assoc (s t u : string) : (s +:+ t) +:+ u = s +:+ t +:+ u.
Proof.
  induction s as [|x s IH]; cbn [String.append]; [reflexivity|]. f_equal. exact IH.
Qed.

Lemma length_append (s t : string) :
  String.length (s +:+ t) = String.length s + String.length t.
Proof.
  induction s as [|x s IH]; cbn [String.append String.length Nat.add]; [reflexivity|].
  f_equal. exact IH.
Qed.

Lemma digit_class (c : ascii) :
  is_digit c ->
  isdigit c = true /\ isspace c = false /\ Ascii.eqb c "-" = false /\ Ascii.eqb c "+" = false.
Proof.
  unfold is_digit. simpl. intros H.
  repeat (destruct H as [<-|H]; [repeat split; reflexivity|]). destruct H.
Qed.

Lemma dec_head (n : nat) : exists d t, dec n = String d t /\ is_digit d.
Proof.
  destruct (dec n) as [|d t] eqn:E.
  - pose proof (dec_decimal n) as H. rewrite E in H. discriminate.
  - exists d, t. split; [reflexivity|]. apply (dec_digits n). rewrite E.
    unfold contains_char. simpl. auto.
Qed.

Lemma skip_space_all (w x : string) : all_space w -> skip_space (w +:+ x) = skip_space x.
Proof.
  unfold all_space, contains_char. induction w as [|a w IH]; simpl; intros H; [reflexivity|].
  rewrite (H a) by auto. apply IH. intros c Hc. apply H. auto.
Qed.

Lemma scan_digits_end (rest : string) (acc : N) :
  ends_number rest -> scan_digits rest acc = (acc, rest).
Proof. destruct rest as [|c rest]; simpl; [reflexivity|]. intros ->. reflexivity. Qed.

Lemma scan_digits_uint (rest : string) (Hrest : ends_number rest) (d : Decimal.uint) :
  forall acc : nat,
  scan_digits (NilEmpty.string_of_uint d +:+ rest) (N.of_nat acc) =
  (N.of_nat (Nat.of_uint_acc d acc), rest).
Proof.
  induction d as [|d IH|d IH|d IH|d IH|d IH|d IH|d IH|d IH|d IH|d IH]; intros acc;
    [apply scan_digits_end, Hrest|..];
    cbn [NilEmpty.string_of_uint String.append scan_digits Nat.of_uint_acc];
    (match goal with |- context [isdigit ?c] => change (isdigit c) with true end);
    cbv iota; rewrite Nat.tail_mul_spec, <- IH; f_equal;
    (match goal with |- context [nat_of_ascii ?c - 48] =>
       let v := eval vm_compute in (nat_of_ascii c - 48) in
       change (nat_of_ascii c - 48) with v end); lia.
Qed.

Lemma scan_digits_dec (n : nat) (rest : string) :
  ends_number rest -> scan_digits (dec n +:+ rest) 0%N = (N.of_nat n, rest).
Proof.
  intros Hrest. unfold dec, NilZero.string_of_uint.
  pose proof (Unsigned.of_to n) as Hn. unfold Nat.of_uint in Hn.
  destruct (Nat.to_uint n) as [|d|d|d|d|d|d|d|d|d|d] eqn:E; cbv iota;
    try (change 0%N with (N.of_nat 0);
         rewrite (scan_digits_uint rest Hrest), Hn; reflexivity).
  cbn [Nat.of_uint_acc] in Hn. subst n.
  cbn [String.append scan_digits]. change (isdigit "0") with true. cbv iota.
  rewrite scan_digits_end by exact Hrest. reflexivity.
Qed.

(** [%u] on a number written in decimal after white space. *)
Lemma scan_unsigned_field (w : string) (n : nat) (rest : string) :
  all_space w -> ends_number rest -> fits_unsigned n ->
  scan_unsigned (w +:+ dec n +:+ rest) = Matched (N.of_nat n) rest.
Proof.
  intros Hw Hrest Hfit. unfold scan_unsigned. rewrite skip_space_all by exact Hw.
  pose proof (scan_digits_dec n rest Hrest) as Hscan.
  destruct (dec_head n) as (d & t & E & Hd). rewrite E in *.
  destruct (digit_class d Hd) as (Hdig & Hsp & Hminus & Hplus).
  cbn [String.append skip_space] in *. rewrite Hsp, Hminus, Hplus, Hdig, Hscan.
  unfold fits_unsigned in Hfit.
  destruct (N.ltb_spec UINT_MAX (N.of_nat n)) as [Hlt|_]; [lia|reflexivity].
Qed.

Lemma sscanf_tcp_quad (w0 w1 w2 w3 : string) (n0 n1 n2 n3 : nat) (tail : string) :
  all_space w0 -> all_space w1 -> all_space w2 -> all_space w3 ->
  fits_unsigned n0 -> fits_unsigned n1 -> fits_unsigned n2 -> fits_unsigned n3 ->
  ends_number tail ->
  sscanf_tcp ("tcp://" +:+ dotted_quad w0 w1 w2 w3 n0 n1 n2 n3 +:+ tail) =
  Items (match tail with EmptyString => 4 | _ => 5 end)%Z
    [N.of_nat n0; N.of_nat n1; N.of_nat n2; N.of_nat n3].
Proof.
  intros Hw0 Hw1 Hw2 Hw3 Hn0 Hn1 Hn2 Hn3 Htail.
  unfold dotted_quad. rewrite !append_assoc.
  unfold sscanf_tcp. cbn [String.append scan_literal Ascii.eqb Bool.eqb]. cbv iota.
  cbn [scan_fields]. rewrite scan_unsigned_field by (assumption || reflexivity).
  cbn [scan_fields app length String.append scan_literal Ascii.eqb Bool.eqb]. cbv iota.
  rewrite scan_unsigned_field by (assumption || reflexivity).
  cbn [scan_fields app length String.append scan_literal Ascii.eqb Bool.eqb]. cbv iota.
  rewrite scan_unsigned_field by (assumption || reflexivity).
  cbn [scan_fields app length String.append scan_literal Ascii.eqb Bool.eqb]. cbv iota.
  rewrite scan_unsigned_field by (assumption || reflexivity).
  cbn [scan_fields app length]. destruct tail; reflexivity.
Qed.

Lemma append_nil_r (s : string) : s +:+ EmptyString = s.
Proof. induction s as [|x s IH]; cbn [String.append]; [reflexivity|]. f_equal. exact IH. Qed.

Lemma octet_test (n : nat) : (255 <? N.of_nat n)%N = negb (is_octet n).
Proof.
  unfold is_octet. destruct (N.ltb_spec 255 (N.of_nat n)), (Nat.leb_spec n 255);
    try reflexivity; lia.
Qed.

Lemma after_scheme (address : string) :
  substr ("tcp://" +:+ address) 6 (String.length ("tcp://" +:+ address) - 6) = address.
Proof.
  unfold substr. cbn [String.append String.length Nat.sub String.substring].
  rewrite Nat.sub_0_r. apply substring_all.
Qed.

Lemma scheme_not_tcp (address : string) : String.eqb ("tcp://" +:+ address) "tcp" = false.
Proof. reflexivity. Qed.

(** A forwarder written [tcp://] and four decimal numbers separated by
    dots, each possibly after white space, is accepted exactly when every
    number is at most 255; the address kept is the text after [tcp://] as
    it was written, white space included. *)
Theorem parse_dns_public_quad (w0 w1 w2 w3 : string) (n0 n1 n2 n3 : nat)
    (Hw0 : all_space w0) (Hw1 : all_space w1) (Hw2 : all_space w2) (Hw3 : all_space w3)
    (Hn0 : fits_unsigned n0) (Hn1 : fits_unsigned n1)
    (Hn2 : fits_unsigned n2) (Hn3 : fits_unsigned n3) :
  parse_dns_public ("tcp://" +:+ dotted_quad w0 w1 w2 w3 n0 n1 n2 n3) =
  Some (if is_octet n0 && is_octet n1 && is_octet n2 && is_octet n3
        then [dotted_quad w0 w1 w2 w3 n0 n1 n2 n3] else []).
Proof.
  pose proof (sscanf_tcp_quad w0 w1 w2 w3 n0 n1 n2 n3 EmptyString
                Hw0 Hw1 Hw2 Hw3 Hn0 Hn1 Hn2 Hn3 I) as Hscan.
  rewrite append_nil_r in Hscan.
  unfold parse_dns_public. rewrite scheme_not_tcp, Hscan, after_scheme, !octet_test.
  cbn [Z.eqb Pos.eqb app].
  destruct (is_octet n0), (is_octet n1), (is_octet n2), (is_octet n3); reflexivity.
Qed.

Lemma parse_dns_public_quad_witness :
  parse_dns_public "tcp:// 10.0.0.1" = Some [" 10.0.0.1"] /\
  parse_dns_public "tcp://10.0.0.256" = Some [].
Proof.
  assert (Hsp : all_space " ") by (intros c [<-|[]]; reflexivity).
  assert (Hno : all_space "") by (intros c []).
  assert (Hfit : forall n, n <= 256 -> fits_unsigned n)
    by (intros n Hn; unfold fits_unsigned, UINT_MAX; lia).
  split.
  - apply (parse_dns_public_quad " " "" "" "" 10 0 0 1); auto; apply Hfit; lia.
  - apply (parse_dns_public_quad "" "" "" "" 10 0 0 256); auto; apply Hfit; lia.
Defined.

(** Anything left after the fourth number, other than more digits, makes
    the forwarder invalid: no address is kept. *)
Theorem parse_dns_public_trailing (w0 w1 w2 w3 : string) (n0 n1 n2 n3 : nat)
    (c : ascii) (rest : string)
    (Hw0 : all_space w0) (Hw1 : all_space w1) (Hw2 : all_space w2) (Hw3 : all_space w3)
    (Hn0 : fits_unsigned n0) (Hn1 : fits_unsigned n1)
    (Hn2 : fits_unsigned n2) (Hn3 : fits_unsigned n3)
    (Hc : isdigit c = false) :
  parse_dns_public ("tcp://" +:+ dotted_quad w0 w1 w2 w3 n0 n1 n2 n3 +:+ String c rest) =
  Some [].
Proof.
  unfold parse_dns_public.
  rewrite scheme_not_tcp, (sscanf_tcp_quad w0 w1 w2 w3 n0 n1 n2 n3 (String c rest))
    by assumption.
  reflexivity.
Qed.

Lemma parse_dns_public_trailing_witness :
  parse_dns_public "tcp://10.0.0.1:53" = Some [].
Proof.
  assert (Hno : all_space "") by (intros c []).
  assert (Hfit : forall n, n <= 256 -> fits_unsigned n)
    by (intros n Hn; unfold fits_unsigned, UINT_MAX; lia).
  apply (parse_dns_public_trailing "" "" "" "" 10 0 0 1 ":" "53"); auto; apply Hfit; lia.
Defined.

Lemma scan_literal_prefix (lit : string) : forall input rest,
  scan_literal lit input = Matched tt rest -> String.prefix lit input = true.
Proof.
  induction lit as [|c lit IH]; intros [|a input] rest; cbn [scan_literal String.prefix];
    try reflexivity; try discriminate.
  destruct (Ascii.eqb_spec a c) as [->|Hne]; [|discriminate].
  destruct (Ascii.ascii_dec c c) as [_|Hcc]; [|contradiction]. apply IH.
Qed.

(** A value that is neither [tcp] nor begins with [tcp://] configures no
    forwarder. *)
Theorem parse_dns_public_other_scheme (s : string)
    (Hscheme : String.prefix "tcp://" s = false) (Hplain : s <> "tcp") :
  parse_dns_public s = Some [].
Proof.
  unfold parse_dns_public. apply String.eqb_neq in Hplain. rewrite Hplain.
  unfold sscanf_tcp. destruct (scan_literal "tcp://" s) as [[] rest| | |] eqn:E; try reflexivity.
  apply scan_literal_prefix in E. congruence.
Qed.

Lemma parse_dns_public_other_scheme_witness :
  parse_dns_public "udp://10.0.0.1" = Some [].
Proof. apply parse_dns_public_other_scheme; [reflexivity|discriminate]. Defined.

(** The literal value [tcp] selects the built-in list of public resolvers. *)
Example parse_dns_public_default :
  parse_dns_public "tcp" = Some DEFAULT_DNS_PUBLIC_ADDR.
Proof. reflexivity. Qed.

End ParseDnsPublic.
